(** * Cute Chess: the engine session layer and the Crazyhouse hand rules

    A shallow embedding of [projects/lib/src/chessengine.cpp] and of the
    declarations of [projects/lib/src/board/crazyhouseboard.h].

    The session object is a record; every member function becomes a
    function from sessions to sessions.  What a member function does to
    the outside world (bytes handed to the I/O device, signals emitted,
    protocol primitives invoked, diagnostics) is appended to the trace
    [m_trace], in program order. *)

From Stdlib Require Import ZArith Lia Ascii String.
From stdpp Require Import base decidable list strings gmap.

Local Open Scope Z_scope.

(** ** Collaborators of the session *)

(** Modelled from the spec: [ChessPlayer::State] is declared in
    chessplayer.h, which is not among the files verified here.  The spec
    lists the values {NotStarted, Starting, Idle, Observing, Thinking,
    FinishingGame, Disconnected}; chessengine.cpp names all of them but
    [Thinking]. *)
Inductive State : Set :=
| NotStarted | Starting | Idle | Observing | Thinking | FinishingGame
| Disconnected.

#[global] Instance State_eq_dec : EqDecision State.
Proof. solve_decision. Defined.

(** Modelled from the spec: [Chess::Result] is declared in the chessboard
    library; the only cause chessengine.cpp names is
    [WinByStalledConnection], the others are kept apart by their code. *)
Inductive ResultType : Set :=
| WinByStalledConnection
| OtherResult (code : Z).

#[global] Instance ResultType_eq_dec : EqDecision ResultType.
Proof. solve_decision. Defined.

(** [QVariant], as far as option values need it. *)
Inductive QVariant : Set :=
| QVInvalid
| QVBool (b : bool)
| QVString (s : string).

#[global] Instance QVariant_eq_dec : EqDecision QVariant.
Proof. solve_decision. Defined.

Definition toString (v : QVariant) : string :=
  match v with
  | QVInvalid => ""
  | QVBool true => "true"
  | QVBool false => "false"
  | QVString s => s
  end.

(** Modelled from the spec: [EngineOption] (engineoption.h) is an Option
    of the registry: a name, the current value and a validity predicate. *)
Record EngineOption : Type := mkOption {
  opt_name : string;
  opt_value : QVariant;
  opt_isValid : QVariant -> bool
}.

Definition opt_setValue (v : QVariant) (o : EngineOption) : EngineOption :=
  mkOption (opt_name o) v (opt_isValid o).

(** [EngineSettings::CustomSetting]: the aggregate [{ name, value }]. *)
Record CustomSetting : Set := mkSetting {
  cs_name : string;
  cs_value : QVariant
}.

(** The single-shot heartbeat timer. *)
Record QTimer : Set := mkTimer {
  singleShot : bool;
  isActive : bool;
  interval : Z
}.

(** The I/O device: whether it is open, and whether its
    [readChannelFinished()] signal is still connected to [onDisconnect()]. *)
Record QIODevice : Set := mkDevice {
  isOpen : bool;
  readChannelFinished_connected : bool
}.

(** What a member function does to its environment. *)
Inductive Effect : Set :=
| IoWrite (bytes : string)             (* m_ioDevice->write(bytes) *)
| IoClose                              (* m_ioDevice->close() *)
| SigReady                             (* emit ready() *)
| SigDebugMessage (dir name : string) (id : Z) (text : string)
| SigForfeit (cause : ResultType)      (* emitForfeit(cause) *)
| QDebug (words : list string)         (* qDebug() << ... *)
| ProtoStart                           (* startProtocol() *)
| ProtoPing                            (* sendPing() went out *)
| ProtoQuit                            (* sendQuit() *)
| ProtoOption (name value : string).   (* sendOption(name, value) *)

#[global] Instance Effect_eq_dec : EqDecision Effect.
Proof. solve_decision. Defined.

(** ** The session object *)

Record ChessEngine : Type := mkEngine {
  (* ChessPlayer *)
  m_state : State;
  m_name : string;
  (* ChessEngine *)
  m_whiteEvalPov : bool;
  m_id : Z;
  m_pingState : State;
  m_pinging : bool;
  m_pingTimer : QTimer;
  m_writeBuffer : list string;
  m_optionBuffer : list CustomSetting;
  m_options : list EngineOption;
  m_ioDevice : QIODevice;
  (* the environment *)
  m_trace : list Effect
}.

Definition state (e : ChessEngine) : State := m_state e.

Definition setState (s : State) (e : ChessEngine) : ChessEngine :=
  mkEngine s (m_name e) (m_whiteEvalPov e) (m_id e) (m_pingState e)
    (m_pinging e) (m_pingTimer e) (m_writeBuffer e) (m_optionBuffer e)
    (m_options e) (m_ioDevice e) (m_trace e).

Definition set_pingState (s : State) (e : ChessEngine) : ChessEngine :=
  mkEngine (m_state e) (m_name e) (m_whiteEvalPov e) (m_id e) s
    (m_pinging e) (m_pingTimer e) (m_writeBuffer e) (m_optionBuffer e)
    (m_options e) (m_ioDevice e) (m_trace e).

Definition set_pinging (b : bool) (e : ChessEngine) : ChessEngine :=
  mkEngine (m_state e) (m_name e) (m_whiteEvalPov e) (m_id e) (m_pingState e)
    b (m_pingTimer e) (m_writeBuffer e) (m_optionBuffer e)
    (m_options e) (m_ioDevice e) (m_trace e).

Definition set_pingTimer (t : QTimer) (e : ChessEngine) : ChessEngine :=
  mkEngine (m_state e) (m_name e) (m_whiteEvalPov e) (m_id e) (m_pingState e)
    (m_pinging e) t (m_writeBuffer e) (m_optionBuffer e)
    (m_options e) (m_ioDevice e) (m_trace e).

Definition set_writeBuffer (b : list string) (e : ChessEngine) : ChessEngine :=
  mkEngine (m_state e) (m_name e) (m_whiteEvalPov e) (m_id e) (m_pingState e)
    (m_pinging e) (m_pingTimer e) b (m_optionBuffer e)
    (m_options e) (m_ioDevice e) (m_trace e).

Definition set_optionBuffer (b : list CustomSetting) (e : ChessEngine)
  : ChessEngine :=
  mkEngine (m_state e) (m_name e) (m_whiteEvalPov e) (m_id e) (m_pingState e)
    (m_pinging e) (m_pingTimer e) (m_writeBuffer e) b
    (m_options e) (m_ioDevice e) (m_trace e).

Definition set_options (o : list EngineOption) (e : ChessEngine)
  : ChessEngine :=
  mkEngine (m_state e) (m_name e) (m_whiteEvalPov e) (m_id e) (m_pingState e)
    (m_pinging e) (m_pingTimer e) (m_writeBuffer e) (m_optionBuffer e)
    o (m_ioDevice e) (m_trace e).

Definition set_ioDevice (d : QIODevice) (e : ChessEngine) : ChessEngine :=
  mkEngine (m_state e) (m_name e) (m_whiteEvalPov e) (m_id e) (m_pingState e)
    (m_pinging e) (m_pingTimer e) (m_writeBuffer e) (m_optionBuffer e)
    (m_options e) d (m_trace e).

(** Append one effect to the trace. *)
Definition emit (x : Effect) (e : ChessEngine) : ChessEngine :=
  mkEngine (m_state e) (m_name e) (m_whiteEvalPov e) (m_id e) (m_pingState e)
    (m_pinging e) (m_pingTimer e) (m_writeBuffer e) (m_optionBuffer e)
    (m_options e) (m_ioDevice e) (m_trace e ++ [x]).

(** [m_pingTimer.start(msec)] and [m_pingTimer.stop()]. *)
Definition timer_start (msec : Z) (e : ChessEngine) : ChessEngine :=
  set_pingTimer (mkTimer (singleShot (m_pingTimer e)) true msec) e.

Definition timer_stop (e : ChessEngine) : ChessEngine :=
  set_pingTimer
    (mkTimer (singleShot (m_pingTimer e)) false (interval (m_pingTimer e))) e.

(** [disconnect(m_ioDevice, SIGNAL(readChannelFinished()), this,
    SLOT(onDisconnect()))] and [m_ioDevice->close()]. *)
Definition disconnect_readChannelFinished (e : ChessEngine) : ChessEngine :=
  set_ioDevice (mkDevice (isOpen (m_ioDevice e)) false) e.

Definition ioDevice_close (e : ChessEngine) : ChessEngine :=
  emit IoClose
    (set_ioDevice
       (mkDevice false (readChannelFinished_connected (m_ioDevice e))) e).

(** ** Observations on a trace *)

(** The byte strings handed to the device, oldest first. *)
Definition streamOf (t : list Effect) : list string :=
  omap (fun x => match x with IoWrite b => Some b | _ => None end) t.

(** The causes of the forfeiture reports, oldest first. *)
Definition forfeitsOf (t : list Effect) : list ResultType :=
  omap (fun x => match x with SigForfeit r => Some r | _ => None end) t.

(** The set-option commands sent, oldest first. *)
Definition optionsSentOf (t : list Effect) : list (string * string) :=
  omap (fun x => match x with ProtoOption n v => Some (n, v) | _ => None end) t.

Definition countOf (x : Effect) (t : list Effect) : nat :=
  length (filter (fun y => y = x) t).

(** ** Text *)

Definition newline : string := String "010"%char EmptyString.

(** [QString::toAscii()]: with no codec installed Qt 4 converts to
    Latin-1, which keeps every 8-bit character. *)
Definition toAscii (s : string) : string := s.

(** ** The protocol behind the session

    [startProtocol], [sendPing], [sendQuit] and [sendOption] are pure
    virtual in [ChessEngine]; the protocol classes that implement them are
    not among the files verified here. *)

(** Modelled from the spec: the "send heartbeat" primitive either goes out
    or "reports failure (e.g., stream not writable)"; which of the two is up
    to the protocol. *)
Class EngineProtocol : Type := {
  sendPingSucceeds : ChessEngine -> bool
}.

(** Modelled from the spec: a protocol primitive is seen only through its
    invocation, which the trace records; it touches no member of the
    session. *)
Definition startProtocol (e : ChessEngine) : ChessEngine := emit ProtoStart e.

Definition sendQuit (e : ChessEngine) : ChessEngine := emit ProtoQuit e.

Definition sendOption (name value : string) (e : ChessEngine) : ChessEngine :=
  emit (ProtoOption name value) e.

Definition sendPing `{EngineProtocol} (e : ChessEngine) : bool * ChessEngine :=
  if sendPingSucceeds e then (true, emit ProtoPing e) else (false, e).

(** Modelled from the spec: [ChessPlayer::closeConnection()] (chessplayer.cpp)
    is the transition "any active state -> Disconnected". *)
Definition ChessPlayer_closeConnection (e : ChessEngine) : ChessEngine :=
  setState Disconnected e.

(** Modelled from the spec: [ChessPlayer::emitForfeit(cause)] reports "a
    forfeiture of the current game attributable to this session" with the
    given cause. *)
Definition emitForfeit (cause : ResultType) (e : ChessEngine) : ChessEngine :=
  emit (SigForfeit cause) e.

(** ** Member functions of [ChessEngine] *)

(** [getOption]: the first registered option of that name, or the null
    pointer. *)
Fixpoint findOption (name : string) (os : list EngineOption)
  : option EngineOption :=
  match os with
  | [] => None
  | o :: os' => if bool_decide (opt_name o = name) then Some o
                else findOption name os'
  end.

Definition getOption (name : string) (e : ChessEngine) : option EngineOption :=
  findOption name (m_options e).

(** [option->setValue(value)] on the object [getOption] points at: the
    first option of that name is the one updated. *)
Fixpoint storeValue (name : string) (v : QVariant) (os : list EngineOption)
  : list EngineOption :=
  match os with
  | [] => []
  | o :: os' => if bool_decide (opt_name o = name)
                then opt_setValue v o :: os'
                else o :: storeValue name v os'
  end.

Definition setOption (name : string) (value : QVariant) (e : ChessEngine)
  : ChessEngine :=
  if bool_decide (state e = Starting) || bool_decide (state e = NotStarted)
  then set_optionBuffer (m_optionBuffer e ++ [mkSetting name value]) e
  else
    match getOption name e with
    | None => emit (QDebug [m_name e; "doesn't have option"; name]) e
    | Some option =>
        if negb (opt_isValid option value)
        then emit (QDebug ["Invalid value for option"; name; ":";
                           toString value]) e
        else sendOption name (toString value)
               (set_options (storeValue name value (m_options e)) e)
    end.

(** [write]: dropped when Disconnected, queued when NotStarted or while a
    ping is outstanding, otherwise traced and handed to the device.  The
    [Q_ASSERT] on [isWritable()] is a debug-build check without effect. *)
Definition write (data : string) (e : ChessEngine) : ChessEngine :=
  if bool_decide (state e = Disconnected) then e
  else if bool_decide (state e = NotStarted) || m_pinging e
  then set_writeBuffer (m_writeBuffer e ++ [data]) e
  else emit (IoWrite (toAscii data +:+ newline))
         (emit (SigDebugMessage ">" (m_name e) (m_id e) data) e).

(** [flushWriteBuffer]: [foreach] walks a copy of the buffer. *)
Definition flushWriteBuffer (e : ChessEngine) : ChessEngine :=
  if m_pinging e || bool_decide (state e = NotStarted) then e
  else set_writeBuffer []
         (foldl (fun acc line => write line acc) e (m_writeBuffer e)).

Definition start (e : ChessEngine) : ChessEngine :=
  if bool_decide (state e <> NotStarted) then e
  else
    let e := set_pinging false e in
    let e := setState Starting e in
    let e := flushWriteBuffer e in
    let e := startProtocol e in
    set_pinging true e.

(** [onProtocolStart]; [Q_ASSERT(isReady())] is a debug-build check. *)
Definition onProtocolStart (e : ChessEngine) : ChessEngine :=
  let e := set_pinging false e in
  let e := setState Idle e in
  let e := flushWriteBuffer e in
  let e := foldl (fun acc setting =>
                    setOption (cs_name setting) (cs_value setting) acc)
                 e (m_optionBuffer e) in
  set_optionBuffer [] e.

Definition closeConnection (e : ChessEngine) : ChessEngine :=
  if bool_decide (state e = Disconnected) then e
  else
    let e := ChessPlayer_closeConnection e in
    let e := set_pinging false e in
    let e := timer_stop e in
    let e := set_writeBuffer [] e in
    let e := emit SigReady e in
    let e := disconnect_readChannelFinished e in
    ioDevice_close e.

Section Protocol.
Context `{EngineProtocol}.

Definition ping (e : ChessEngine) : ChessEngine :=
  if m_pinging e then e
  else if bool_decide (state e = NotStarted) then e
  else if bool_decide (state e = Disconnected) then e
  else
    let (sent, e) := sendPing e in
    if negb sent then e
    else
      let e := set_pinging true e in
      let e := set_pingState (state e) e in
      timer_start 10000 e.

Definition pong (e : ChessEngine) : ChessEngine :=
  if negb (m_pinging e) then e
  else
    let e := timer_stop e in
    let e := set_pinging false e in
    let e := flushWriteBuffer e in
    if bool_decide (state e = FinishingGame)
    then
      if bool_decide (m_pingState e = FinishingGame)
      then
        let e := setState Idle e in
        let e := set_pingState Idle e in
        emit SigReady e
      else ping e
    else emit SigReady e.

End Protocol.

Definition onPingTimeout (e : ChessEngine) : ChessEngine :=
  let e := emit (QDebug ["Engine"; m_name e; "failed to respond to ping"]) e in
  let e := set_pinging false e in
  let e := set_writeBuffer [] e in
  let e := closeConnection e in
  emitForfeit WinByStalledConnection e.

Definition quit (e : ChessEngine) : ChessEngine :=
  if negb (isOpen (m_ioDevice e)) || bool_decide (state e = Disconnected)
  then e
  else
    let e := disconnect_readChannelFinished e in
    let e := sendQuit e in
    setState Disconnected e.

(** ** Construction and destruction

    [m_count] is a static member: the process owns it, every constructor
    and destructor call threads it through.  It is an [int]; the
    arithmetic is written with its 32-bit wrap-around. *)

Definition wrap_int (z : Z) : Z := (z + 2 ^ 31) mod 2 ^ 32 - 2 ^ 31.

(** [ChessEngine::ChessEngine]: [m_id(m_count++)]; the device's
    [readChannelFinished()] is connected to [onDisconnect()] and the timer
    is made single-shot.  The base class starts a player in NotStarted. *)
Definition construct (ioDevice : QIODevice) (count : Z) : ChessEngine * Z :=
  (mkEngine NotStarted "" false count NotStarted false
     (mkTimer true false 0) [] [] [] (mkDevice (isOpen ioDevice) true) [],
   wrap_int (count + 1)).

(** [ChessEngine::~ChessEngine]: the options are freed, then [--m_count]. *)
Definition destruct_engine (e : ChessEngine) (count : Z) : Z :=
  wrap_int (count - 1).

(** The process: the static counter, the sessions alive, and the ids handed
    out so far, in the order of construction. *)
Record Process : Type := mkProcess {
  m_count : Z;
  engines : list ChessEngine;
  assigned : list Z
}.

(** [int ChessEngine::m_count = 0;] *)
Definition initialProcess : Process := mkProcess 0 [] [].

(** What a driver does to the process: construct a session over a device,
    or delete the [k]-th session alive. *)
Inductive ProcessOp : Set :=
| OpNew (ioDevice : QIODevice)
| OpDelete (k : nat).

Definition step (p : Process) (op : ProcessOp) : Process :=
  match op with
  | OpNew d =>
      let (e, c) := construct d (m_count p) in
      mkProcess c (engines p ++ [e]) (assigned p ++ [m_id e])
  | OpDelete k =>
      match engines p !! k with
      | Some e => mkProcess (destruct_engine e (m_count p))
                    (delete k (engines p)) (assigned p)
      | None => p
      end
  end.

Definition run (ops : list ProcessOp) (p : Process) : Process :=
  foldl step p ops.

(** Two protocols to run sessions with: one whose heartbeat always goes
    out, and one without heartbeat support, whose [sendPing] always reports
    failure. *)
Definition pingingProtocol : EngineProtocol :=
  {| sendPingSucceeds := fun _ => true |}.

Definition muteProtocol : EngineProtocol :=
  {| sendPingSucceeds := fun _ => false |}.

(** An open device, no listener attached yet. *)
Definition openDevice : QIODevice := mkDevice true false.

(** The first session of a process. *)
Definition firstEngine : ChessEngine := fst (construct openDevice 0).

(** ** Vocabulary for statements about traces *)

(** Append a run of effects to the trace. *)
Definition emits (t : list Effect) (e : ChessEngine) : ChessEngine :=
  mkEngine (m_state e) (m_name e) (m_whiteEvalPov e) (m_id e) (m_pingState e)
    (m_pinging e) (m_pingTimer e) (m_writeBuffer e) (m_optionBuffer e)
    (m_options e) (m_ioDevice e) (m_trace e ++ t).

(** What an immediate [write] of [line] does to the environment. *)
Definition sendEffects (e : ChessEngine) (line : string) : list Effect :=
  [SigDebugMessage ">" (m_name e) (m_id e) line;
   IoWrite (toAscii line +:+ newline)].

(** The bytes a list of lines occupies on the stream. *)
Definition onStream (lines : list string) : list string :=
  (fun line => toAscii line +:+ newline) <$> lines.


(** Whether the registry takes an edit: the option is declared and its
    validity predicate accepts the value. *)
Definition accepts (os : list EngineOption) (s : CustomSetting) : bool :=
  match findOption (cs_name s) os with
  | Some o => opt_isValid o (cs_value s)
  | None => false
  end.

(** The registry after one edit has been applied to it. *)
Definition applyEdit (os : list EngineOption) (s : CustomSetting)
  : list EngineOption :=
  if accepts os s then storeValue (cs_name s) (cs_value s) os else os.

(** The one effect an edit has once the session is past Starting: the
    set-option command, or the diagnostic that says why there is none. *)
Definition editEffect (player : string) (os : list EngineOption)
    (s : CustomSetting) : Effect :=
  match findOption (cs_name s) os with
  | None => QDebug [player; "doesn't have option"; cs_name s]
  | Some o =>
      if opt_isValid o (cs_value s)
      then ProtoOption (cs_name s) (toString (cs_value s))
      else QDebug ["Invalid value for option"; cs_name s; ":";
                   toString (cs_value s)]
  end.

(** The command a pending edit stands for. *)
Definition commandFor (s : CustomSetting) : string * string :=
  (cs_name s, toString (cs_value s)).

(** Submitting a run of edits, and a run of lines, one call each. *)
Definition setOptions (edits : list CustomSetting) (e : ChessEngine)
  : ChessEngine :=
  foldl (fun acc s => setOption (cs_name s) (cs_value s) acc) e edits.

Definition writes (lines : list string) (e : ChessEngine) : ChessEngine :=
  foldl (fun acc l => write l acc) e lines.

(** A session that has completed startup and has a heartbeat outstanding. *)
Definition waitingEngine : ChessEngine :=
  @ping pingingProtocol (onProtocolStart (start firstEngine)).

(** A session in Starting whose engine has declared the option "Hash",
    which accepts every value but the invalid one. *)
Definition hashEngine : ChessEngine :=
  set_options
    [mkOption "Hash" (QVString "64")
       (fun v => negb (bool_decide (v = QVInvalid)))]
    (start firstEngine).

(** A session whose heartbeat went out while Observing and whose game has
    ended while it waits. *)
Definition finishedWhileWaiting : ChessEngine :=
  setState FinishingGame
    (@ping pingingProtocol (setState Observing (onProtocolStart (start firstEngine)))).

(** A protocol whose heartbeat goes out in every state but FinishingGame,
    where [sendPing] reports failure. *)
Definition quietFinishProtocol : EngineProtocol :=
  {| sendPingSucceeds := fun e => negb (bool_decide (state e = FinishingGame)) |}.

(** A session of that protocol whose heartbeat went out while Observing
    and whose game has ended while it waits. *)
Definition stalledFinish : ChessEngine :=
  setState FinishingGame
    (@ping quietFinishProtocol
       (setState Observing (onProtocolStart (start firstEngine)))).

(** ** The Crazyhouse board

    crazyhouseboard.h declares the class; the bodies of its member
    functions (crazyhouseboard.cpp) and its base class [WesternBoard] are not
    among the files verified here. *)

Module CrazyhouseBoard.

Inductive Side : Set := White | Black.

#[global] Instance Side_eq_dec : EqDecision Side.
Proof. solve_decision. Defined.

#[global] Instance Side_countable : Countable Side :=
  inj_countable'
    (fun s => match s with White => true | Black => false end)
    (fun b : bool => if b then White else Black)
    (fun s => match s with White => eq_refl | Black => eq_refl end).

Definition otherSide (s : Side) : Side :=
  match s with White => Black | Black => White end.

(** Modelled from the spec: the piece types of [WesternBoard]
    (westernboard.h) are the six of standard chess; [CrazyhousePieceType]
    starts at 7, right after them. *)
Definition NoPiece : Z := 0.
Definition Pawn : Z := 1.
Definition Knight : Z := 2.
Definition Bishop : Z := 3.
Definition Rook : Z := 4.
Definition Queen : Z := 5.
Definition King : Z := 6.

(** [enum CrazyhousePieceType]: "All of these pieces where promoted from
    pawns, and when they're captured they get demoted back to pawns." *)
Definition PromotedKnight : Z := 7.
Definition PromotedBishop : Z := 8.
Definition PromotedRook : Z := 9.
Definition PromotedQueen : Z := 10.

(** Modelled from the spec: [normalPieceType] and [promotedPieceType] are
    declared here and defined in crazyhouseboard.cpp; they translate between
    a promoted piece type and the standard type it moves as. *)
Definition normalPieceType (type : Z) : Z :=
  if bool_decide (type = PromotedKnight) then Knight
  else if bool_decide (type = PromotedBishop) then Bishop
  else if bool_decide (type = PromotedRook) then Rook
  else if bool_decide (type = PromotedQueen) then Queen
  else type.

Definition promotedPieceType (type : Z) : Z :=
  if bool_decide (type = Knight) then PromotedKnight
  else if bool_decide (type = Bishop) then PromotedBishop
  else if bool_decide (type = Rook) then PromotedRook
  else if bool_decide (type = Queen) then PromotedQueen
  else type.

(** Modelled from the spec: [handPieceType] (crazyhouseboard.cpp) gives
    the "demoted form" in which a captured piece enters the hand.  The
    header documents what that form is: the promoted types go back to
    pawns, every other type is kept. *)
Definition handPieceType (pieceType : Z) : Z :=
  if bool_decide (PromotedKnight <= pieceType) then Pawn else pieceType.

Record Piece : Set := mkPiece {
  side : Side;
  type : Z
}.

#[global] Instance Piece_eq_dec : EqDecision Piece.
Proof. solve_decision. Defined.

(** Modelled from the spec: a move has a source and a target square and
    a promotion slot; a drop has the off-board source 0 and carries the
    dropped piece type in the promotion slot. *)
Record Move : Set := mkMove {
  sourceSquare : Z;
  targetSquare : Z;
  promotion : Z
}.

(** Modelled from the spec: a position has the pieces on their squares,
    the side to move and the hand counts per side and piece type; the
    captured pieces of the moves made are kept for undoing them. *)
Record Board : Type := mkBoard {
  squares : gmap Z Piece;
  hand : gmap (Side * Z) nat;
  sideToMove : Side;
  captures : list (option Piece)
}.

Definition pieceAt (square : Z) (b : Board) : option Piece :=
  squares b !! square.

Definition handCount (s : Side) (pieceType : Z) (b : Board) : nat :=
  default 0%nat (hand b !! (s, pieceType)).

Definition addToHand (s : Side) (pieceType : Z) (h : gmap (Side * Z) nat)
  : gmap (Side * Z) nat :=
  <[(s, pieceType) := S (default 0%nat (h !! (s, pieceType)))]> h.

Definition removeFromHand (s : Side) (pieceType : Z)
    (h : gmap (Side * Z) nat) : gmap (Side * Z) nat :=
  <[(s, pieceType) := pred (default 0%nat (h !! (s, pieceType)))]> h.

(** Modelled from the spec: [vMakeMove] (crazyhouseboard.cpp).  A drop
    "places a hand piece onto an empty square" and "consumes one unit"
    from the hand.  A board move that captures adds the captured piece to
    the capturing side's hand in its demoted form; a promoting pawn is
    put on the board as the promoted type.  [None] stands for a move the
    position does not allow. *)
Definition vMakeMove (move : Move) (b : Board) : option Board :=
  let us := sideToMove b in
  let target := targetSquare move in
  if bool_decide (sourceSquare move = 0)
  then
    if bool_decide (handCount us (promotion move) b = 0%nat) then None
    else
      match pieceAt target b with
      | Some _ => None
      | None =>
          Some (mkBoard
                  (<[target := mkPiece us (promotion move)]> (squares b))
                  (removeFromHand us (promotion move) (hand b))
                  (otherSide us)
                  (None :: captures b))
      end
  else
    match pieceAt (sourceSquare move) b with
    | None => None
    | Some piece =>
        if bool_decide (side piece <> us) then None
        else
          let placed :=
            if bool_decide (promotion move = NoPiece) then piece
            else mkPiece us (promotedPieceType (promotion move)) in
          let moved :=
            <[target := placed]> (delete (sourceSquare move) (squares b)) in
          match pieceAt target b with
          | None =>
              Some (mkBoard moved (hand b) (otherSide us)
                      (None :: captures b))
          | Some captured =>
              if bool_decide (side captured = us) then None
              else
                Some (mkBoard moved
                        (addToHand us (handPieceType (type captured))
                           (hand b))
                        (otherSide us)
                        (Some captured :: captures b))
          end
    end.

(** Modelled from the spec: [vUndoMove] (crazyhouseboard.cpp).  "Undoing
    a drop returns the piece to hand; undoing a capture removes the demoted
    piece from the capturing side's hand and restores the captured piece to
    the board at its original type."  A promoted pawn goes back to its
    source square as a pawn. *)
Definition vUndoMove (move : Move) (b : Board) : option Board :=
  let us := otherSide (sideToMove b) in
  let target := targetSquare move in
  match captures b with
  | [] => None
  | captured :: earlier =>
      if bool_decide (sourceSquare move = 0)
      then
        Some (mkBoard (delete target (squares b))
                (addToHand us (promotion move) (hand b))
                us earlier)
      else
        match pieceAt target b with
        | None => None
        | Some placed =>
            let piece :=
              if bool_decide (promotion move = NoPiece) then placed
              else mkPiece us Pawn in
            let vacated :=
              match captured with
              | Some c => <[target := c]> (squares b)
              | None => delete target (squares b)
              end in
            Some (mkBoard
                    (<[sourceSquare move := piece]> vacated)
                    (match captured with
                     | Some c =>
                         removeFromHand us (handPieceType (type c)) (hand b)
                     | None => hand b
                     end)
                    us earlier)
        end
  end.

(** A position to try captures on: a white rook on square 1, a black
    promoted queen on square 2, White to move, both hands empty. *)
Definition rookTakesPromotedQueen : Board :=
  mkBoard
    (<[1 := mkPiece White Rook]>
       (<[2 := mkPiece Black PromotedQueen]> ∅))
    ∅ White [].

End CrazyhouseBoard.

(** ** Settings

    [EngineSettings] and [TimeControl] are classes of the library whose
    headers are not among the files verified here; [applySettings] reads
    four things off them. *)

(** Of a time control [applySettings] looks at [isValid()] only. *)
Record TimeControl : Set := mkTimeControl {
  tc_isValid : bool
}.

Record EngineSettings : Set := mkSettings {
  initStrings : list string;
  customSettings : list CustomSetting;
  timeControl : TimeControl;
  whiteEvalPov : bool
}.

Definition set_whiteEvalPov (b : bool) (e : ChessEngine) : ChessEngine :=
  mkEngine (m_state e) (m_name e) b (m_id e) (m_pingState e)
    (m_pinging e) (m_pingTimer e) (m_writeBuffer e) (m_optionBuffer e)
    (m_options e) (m_ioDevice e) (m_trace e).

(** [ChessPlayer::setTimeControl] stores the clock in a member of the base
    class; the session record carries no clock, so on it the call changes
    nothing. *)
Definition setTimeControl (tc : TimeControl) (e : ChessEngine) : ChessEngine :=
  e.

(** [applySettings]: the init strings through [write], the custom
    settings through [setOption], the clock if it is valid, the evaluation
    point of view. *)
Definition applySettings (settings : EngineSettings) (e : ChessEngine)
  : ChessEngine :=
  let e := foldl (fun acc str => write str acc) e (initStrings settings) in
  let e := foldl (fun acc setting =>
                    setOption (cs_name setting) (cs_value setting) acc)
                 e (customSettings settings) in
  let e := if tc_isValid (timeControl settings)
           then setTimeControl (timeControl settings) e else e in
  set_whiteEvalPov (whiteEvalPov settings) e.

(** ** Runs of calls

    A session lives through calls of its member functions, made by the game
    driver, the protocol class, the timer and the device.  A run is made of
    the eleven member functions embedded above; [go], [endGame], [onTimeout]
    and [onReadyRead] pass through [ChessPlayer] and the protocol class
    ([stopThinking], [parseLine]) and are not calls of a run. *)
Inductive Call : Set :=
| CallApplySettings (settings : EngineSettings)
| CallSetOption (name : string) (value : QVariant)
| CallStart
| CallOnProtocolStart
| CallCloseConnection
| CallPing
| CallPong
| CallOnPingTimeout
| CallWrite (data : string)
| CallFlushWriteBuffer
| CallQuit.

Section Calls.
Context `{EngineProtocol}.

Definition invoke (e : ChessEngine) (c : Call) : ChessEngine :=
  match c with
  | CallApplySettings settings => applySettings settings e
  | CallSetOption name value => setOption name value e
  | CallStart => start e
  | CallOnProtocolStart => onProtocolStart e
  | CallCloseConnection => closeConnection e
  | CallPing => ping e
  | CallPong => pong e
  | CallOnPingTimeout => onPingTimeout e
  | CallWrite data => write data e
  | CallFlushWriteBuffer => flushWriteBuffer e
  | CallQuit => quit e
  end.

Definition invokeAll (cs : list Call) (e : ChessEngine) : ChessEngine :=
  foldl invoke e cs.

End Calls.

(** ** More vocabulary *)

(** The session may write to the device at once. *)
Definition sendable (e : ChessEngine) : Prop :=
  state e <> NotStarted /\ state e <> Disconnected /\ m_pinging e = false.

(** The texts mirrored to the debug sink as outgoing, oldest first. *)
Definition debugOutOf (t : list Effect) : list string :=
  omap (fun x => match x with
                 | SigDebugMessage dir _ _ text =>
                     if bool_decide (dir = ">") then Some text else None
                 | _ => None
                 end) t.

(** How many of the calls are timeouts of the heartbeat timer. *)
Definition isTimeout (c : Call) : bool :=
  match c with CallOnPingTimeout => true | _ => false end.

Definition timeoutsIn (cs : list Call) : nat :=
  length (filter (fun c => isTimeout c = true) cs).



(** Every declared option holds a value its own predicate accepts. *)
Definition valuesValid (os : list EngineOption) : Prop :=
  Forall (fun o => opt_isValid o (opt_value o) = true) os.

(** The one call that takes a session out of Disconnected. *)
Definition revives (c : Call) : bool :=
  match c with CallOnProtocolStart => true | _ => false end.
(** ** Basic facts about the write path *)

Lemma emits_nil e : emits [] e = e.
Proof. destruct e; unfold emits; simpl. by rewrite app_nil_r. Qed.

Lemma emits_emits t1 t2 e : emits t2 (emits t1 e) = emits (t1 ++ t2) e.
Proof. unfold emits; simpl. by rewrite app_assoc. Qed.

Lemma emit_emits x e : emit x e = emits [x] e.
Proof. reflexivity. Qed.

Lemma streamOf_app t1 t2 : streamOf (t1 ++ t2) = streamOf t1 ++ streamOf t2.
Proof. unfold streamOf. apply omap_app. Qed.

Lemma forfeitsOf_app t1 t2 :
  forfeitsOf (t1 ++ t2) = forfeitsOf t1 ++ forfeitsOf t2.
Proof. unfold forfeitsOf. apply omap_app. Qed.

Lemma optionsSentOf_app t1 t2 :
  optionsSentOf (t1 ++ t2) = optionsSentOf t1 ++ optionsSentOf t2.
Proof. unfold optionsSentOf. apply omap_app. Qed.

Lemma countOf_app x t1 t2 : countOf x (t1 ++ t2) = (countOf x t1 + countOf x t2)%nat.
Proof. unfold countOf. by rewrite filter_app, length_app. Qed.

Lemma streamOf_sent e lines :
  streamOf (flat_map (sendEffects e) lines) = onStream lines.
Proof.
  induction lines as [|l lines IH]; [done|].
  simpl. unfold onStream in *. simpl. by rewrite <- IH.
Qed.

Lemma forfeitsOf_sent e lines : forfeitsOf (flat_map (sendEffects e) lines) = [].
Proof. induction lines as [|l lines IH]; [done|]. simpl. exact IH. Qed.

Lemma optionsSentOf_sent e lines :
  optionsSentOf (flat_map (sendEffects e) lines) = [].
Proof. induction lines as [|l lines IH]; [done|]. simpl. exact IH. Qed.

Lemma countOf_ready_sent e lines :
  countOf SigReady (flat_map (sendEffects e) lines) = 0%nat.
Proof.
  induction lines as [|l lines IH]; [done|].
  unfold countOf in *. simpl.
  rewrite !filter_cons. repeat case_decide; try discriminate. exact IH.
Qed.

Lemma write_dropped data e : state e = Disconnected -> write data e = e.
Proof. intros Hs. unfold write. by rewrite bool_decide_eq_true_2. Qed.

Lemma write_deferred data e :
  state e <> Disconnected ->
  state e = NotStarted \/ m_pinging e = true ->
  write data e = set_writeBuffer (m_writeBuffer e ++ [data]) e.
Proof.
  intros Hd Hq. unfold write.
  rewrite bool_decide_eq_false_2 by done.
  destruct Hq as [Hn | Hp].
  - by rewrite (bool_decide_eq_true_2 _ Hn).
  - rewrite Hp. by rewrite orb_true_r.
Qed.

Lemma write_direct data e :
  state e <> Disconnected -> state e <> NotStarted -> m_pinging e = false ->
  write data e = emits (sendEffects e data) e.
Proof.
  intros Hd Hn Hp. unfold write.
  rewrite !bool_decide_eq_false_2 by done. rewrite Hp. simpl.
  unfold emit, emits, sendEffects. simpl. by rewrite <- app_assoc.
Qed.

Lemma writes_dropped lines e :
  state e = Disconnected -> foldl (fun acc l => write l acc) e lines = e.
Proof.
  intros Hs. induction lines as [|l lines IH]; [done|].
  simpl. by rewrite write_dropped.
Qed.

Lemma writes_deferred lines e :
  state e <> Disconnected ->
  state e = NotStarted \/ m_pinging e = true ->
  foldl (fun acc l => write l acc) e lines
  = set_writeBuffer (m_writeBuffer e ++ lines) e.
Proof.
  revert e. induction lines as [|l lines IH]; intros e Hd Hq.
  - destruct e; unfold set_writeBuffer; simpl. by rewrite app_nil_r.
  - simpl. rewrite write_deferred by done. rewrite IH by done.
    unfold set_writeBuffer; simpl. by rewrite <- app_assoc.
Qed.

Lemma writes_direct lines e :
  state e <> Disconnected -> state e <> NotStarted -> m_pinging e = false ->
  foldl (fun acc l => write l acc) e lines
  = emits (flat_map (sendEffects e) lines) e.
Proof.
  revert e. induction lines as [|l lines IH]; intros e Hd Hn Hp.
  - simpl. by rewrite emits_nil.
  - simpl. rewrite write_direct by done. rewrite IH by done.
    by rewrite emits_emits.
Qed.

(** A flush that goes through sends the whole buffer, in order, and
    empties it. *)
Lemma flush_direct e :
  state e <> Disconnected -> state e <> NotStarted -> m_pinging e = false ->
  flushWriteBuffer e
  = set_writeBuffer [] (emits (flat_map (sendEffects e) (m_writeBuffer e)) e).
Proof.
  intros Hd Hn Hp. unfold flushWriteBuffer.
  rewrite Hp, bool_decide_eq_false_2 by done. simpl.
  by rewrite writes_direct.
Qed.

Lemma flush_blocked e :
  m_pinging e = true \/ state e = NotStarted -> flushWriteBuffer e = e.
Proof.
  intros [Hp | Hn]; unfold flushWriteBuffer.
  - by rewrite Hp.
  - rewrite (bool_decide_eq_true_2 _ Hn). by rewrite orb_true_r.
Qed.

Lemma flush_disconnected e :
  state e = Disconnected -> m_pinging e = false ->
  flushWriteBuffer e = set_writeBuffer [] e.
Proof.
  intros Hs Hp. unfold flushWriteBuffer.
  rewrite Hp, bool_decide_eq_false_2 by (rewrite Hs; discriminate). simpl.
  by rewrite writes_dropped.
Qed.

(** ** Basic facts about the option registry *)

Lemma findOption_storeValue n v n' os :
  findOption n' (storeValue n v os)
  = (fun o => if bool_decide (n = n') then opt_setValue v o else o)
      <$> findOption n' os.
Proof.
  induction os as [|o os IH]; [done|]. simpl.
  destruct (decide (opt_name o = n)) as [E1|E1],
           (decide (opt_name o = n')) as [E2|E2],
           (decide (n = n')) as [E3|E3]; try congruence.
  all: rewrite ?(bool_decide_eq_true_2 _ E1), ?(bool_decide_eq_false_2 _ E1).
  all: simpl.
  all: rewrite ?(bool_decide_eq_true_2 _ E2), ?(bool_decide_eq_false_2 _ E2).
  all: rewrite ?(bool_decide_eq_true_2 _ E3), ?(bool_decide_eq_false_2 _ E3)
         in *.
  all: simpl; try done.
  by destruct (findOption n' os).
Qed.

Lemma accepts_storeValue n v os s :
  accepts (storeValue n v os) s = accepts os s.
Proof.
  unfold accepts. rewrite findOption_storeValue.
  destruct (findOption (cs_name s) os) as [o|]; simpl; [|done].
  by case_bool_decide.
Qed.

Lemma editEffect_storeValue player n v os s :
  editEffect player (storeValue n v os) s = editEffect player os s.
Proof.
  unfold editEffect. rewrite findOption_storeValue.
  destruct (findOption (cs_name s) os) as [o|]; simpl; [|done].
  by case_bool_decide.
Qed.

Lemma accepts_applyEdit os s' s : accepts (applyEdit os s') s = accepts os s.
Proof.
  unfold applyEdit. destruct (accepts os s'); [|done].
  apply accepts_storeValue.
Qed.

Lemma editEffect_applyEdit player os s' s :
  editEffect player (applyEdit os s') s = editEffect player os s.
Proof.
  unfold applyEdit. destruct (accepts os s'); [|done].
  apply editEffect_storeValue.
Qed.

Lemma setOption_queued n v e :
  state e = NotStarted \/ state e = Starting ->
  setOption n v e = set_optionBuffer (m_optionBuffer e ++ [mkSetting n v]) e.
Proof.
  intros Hs. unfold setOption.
  destruct Hs as [Hs | Hs]; rewrite Hs; reflexivity.
Qed.

Lemma setOption_applied n v e :
  state e <> NotStarted -> state e <> Starting ->
  setOption n v e
  = emits [editEffect (m_name e) (m_options e) (mkSetting n v)]
      (set_options (applyEdit (m_options e) (mkSetting n v)) e).
Proof.
  intros Hn Hs. unfold setOption, getOption, editEffect, applyEdit, accepts.
  rewrite !bool_decide_eq_false_2 by done. simpl.
  destruct (findOption n (m_options e)) as [o|]; simpl.
  - destruct (opt_isValid o v); simpl; [done|].
    destruct e; reflexivity.
  - destruct e; reflexivity.
Qed.

Lemma setOptions_queued edits e :
  state e = NotStarted \/ state e = Starting ->
  setOptions edits e = set_optionBuffer (m_optionBuffer e ++ edits) e.
Proof.
  unfold setOptions. revert e.
  induction edits as [|[n v] edits IH]; intros e Hs.
  - destruct e; unfold set_optionBuffer; simpl. by rewrite app_nil_r.
  - simpl. rewrite setOption_queued by done. rewrite IH by done.
    unfold set_optionBuffer; simpl. by rewrite <- app_assoc.
Qed.

Lemma setOptions_applied edits e :
  state e <> NotStarted -> state e <> Starting ->
  setOptions edits e
  = emits (editEffect (m_name e) (m_options e) <$> edits)
      (set_options (foldl applyEdit (m_options e) edits) e).
Proof.
  unfold setOptions. revert e.
  induction edits as [|[n v] edits IH]; intros e Hn Hs.
  - destruct e; unfold emits, set_options; simpl. by rewrite app_nil_r.
  - simpl. rewrite setOption_applied by done. rewrite IH by done.
    simpl.
    assert (editEffect (m_name e) (applyEdit (m_options e) (mkSetting n v))
              <$> edits
            = editEffect (m_name e) (m_options e) <$> edits) as ->.
    { apply list_fmap_ext. intros i s _. apply editEffect_applyEdit. }
    unfold emits, set_options; simpl. by rewrite <- app_assoc.
Qed.

Lemma optionsSentOf_editEffect player os s :
  optionsSentOf [editEffect player os s]
  = if accepts os s then [commandFor s] else [].
Proof.
  unfold editEffect, accepts.
  destruct (findOption (cs_name s) os) as [o|]; [|done].
  by destruct (opt_isValid o (cs_value s)).
Qed.

Lemma optionsSentOf_edits player os edits :
  optionsSentOf (editEffect player os <$> edits)
  = commandFor <$> filter (fun s => accepts os s = true) edits.
Proof.
  induction edits as [|s edits IH]; [done|].
  rewrite fmap_cons, filter_cons.
  change (editEffect player os s :: (editEffect player os <$> edits))
    with ([editEffect player os s] ++ (editEffect player os <$> edits)).
  rewrite optionsSentOf_app, IH, optionsSentOf_editEffect.
  destruct (accepts os s) eqn:A.
  - by rewrite decide_True by done.
  - by rewrite decide_False by done.
Qed.

Lemma streamOf_edits player os edits :
  streamOf (editEffect player os <$> edits) = [].
Proof.
  induction edits as [|s edits IH]; [done|].
  rewrite fmap_cons.
  change (editEffect player os s :: (editEffect player os <$> edits))
    with ([editEffect player os s] ++ (editEffect player os <$> edits)).
  rewrite streamOf_app, IH. unfold editEffect.
  destruct (findOption (cs_name s) os) as [o|]; [|done].
  by destruct (opt_isValid o (cs_value s)).
Qed.

(** ** Basic facts about the heartbeat *)

Lemma ping_cases `{EngineProtocol} e :
  ping e = e
  \/ (fst (sendPing e) = true
      /\ ping e = timer_start 10000
                    (set_pingState (state e)
                       (set_pinging true (emit ProtoPing e)))).
Proof.
  unfold ping, sendPing.
  destruct (m_pinging e); [by left|].
  case_bool_decide; [by left|].
  case_bool_decide; [by left|].
  destruct (sendPingSucceeds e); simpl; [by right | by left].
Qed.

Lemma ping_stream `{EngineProtocol} e :
  streamOf (m_trace (ping e)) = streamOf (m_trace e).
Proof.
  destruct (ping_cases e) as [-> | [_ ->]]; [done|].
  simpl. rewrite streamOf_app. simpl. by rewrite app_nil_r.
Qed.

Lemma ping_ready `{EngineProtocol} e :
  exists t, m_trace (ping e) = m_trace e ++ t /\ countOf SigReady t = 0%nat.
Proof.
  destruct (ping_cases e) as [-> | [_ ->]].
  - exists []. by rewrite app_nil_r.
  - by exists [ProtoPing].
Qed.

Lemma ping_state `{EngineProtocol} e : state (ping e) = state e.
Proof. by destruct (ping_cases e) as [-> | [_ ->]]. Qed.

(** What a flush adds to the trace never holds a ready signal, and it
    changes nothing but the buffer and the trace. *)
Lemma flush_frame e :
  exists b t, flushWriteBuffer e = set_writeBuffer b (emits t e)
              /\ countOf SigReady t = 0%nat
              /\ streamOf t = (if bool_decide (state e = Disconnected)
                               then []
                               else if m_pinging e
                                       || bool_decide (state e = NotStarted)
                               then [] else onStream (m_writeBuffer e)).
Proof.
  destruct (m_pinging e) eqn:Hp.
  { exists (m_writeBuffer e), []. rewrite emits_nil. repeat split.
    - rewrite flush_blocked by auto. by destruct e.
    - simpl. by case_bool_decide. }
  destruct (decide (state e = NotStarted)) as [Hn|Hn].
  { exists (m_writeBuffer e), []. rewrite emits_nil. repeat split.
    - rewrite flush_blocked by auto. by destruct e.
    - rewrite Hn. done. }
  destruct (decide (state e = Disconnected)) as [Hd|Hd].
  { exists [], []. rewrite emits_nil. repeat split.
    - by apply flush_disconnected.
    - by rewrite bool_decide_eq_true_2. }
  exists [], (flat_map (sendEffects e) (m_writeBuffer e)). repeat split.
  - by apply flush_direct.
  - apply countOf_ready_sent.
  - rewrite !bool_decide_eq_false_2 by done. simpl. apply streamOf_sent.
Qed.

(** [onProtocolStart] in one equation: the flush first, then one effect
    per pending edit. *)
Lemma onProtocolStart_eq e :
  onProtocolStart e
  = set_optionBuffer []
      (emits (flat_map (sendEffects e) (m_writeBuffer e)
              ++ (editEffect (m_name e) (m_options e) <$> m_optionBuffer e))
         (set_options (foldl applyEdit (m_options e) (m_optionBuffer e))
            (set_writeBuffer [] (setState Idle (set_pinging false e))))).
Proof.
  unfold onProtocolStart.
  rewrite flush_direct by (unfold state; simpl; done).
  match goal with
  | |- set_optionBuffer [] (foldl _ ?x (m_optionBuffer ?x)) = _ =>
      change (foldl _ x (m_optionBuffer x))
        with (setOptions (m_optionBuffer x) x)
  end.
  rewrite setOptions_applied by (unfold state; simpl; done).
  simpl. unfold set_optionBuffer, emits, set_options; simpl.
  by rewrite <- app_assoc.
Qed.

(** [pong] on a waiting session, with the flush named. *)
Lemma pong_eq `{EngineProtocol} e :
  m_pinging e = true ->
  exists b t,
    countOf SigReady t = 0%nat
    /\ flushWriteBuffer (set_pinging false (timer_stop e))
       = set_writeBuffer b (emits t (set_pinging false (timer_stop e)))
    /\ pong e
       = if bool_decide (state e = FinishingGame)
         then if bool_decide (m_pingState e = FinishingGame)
              then emit SigReady
                     (set_pingState Idle
                        (setState Idle
                           (set_writeBuffer b
                              (emits t (set_pinging false (timer_stop e))))))
              else ping (set_writeBuffer b
                           (emits t (set_pinging false (timer_stop e))))
         else emit SigReady
                (set_writeBuffer b
                   (emits t (set_pinging false (timer_stop e)))).
Proof.
  intros Hp.
  destruct (flush_frame (set_pinging false (timer_stop e)))
    as (b & t & Hf & Hc & _).
  exists b, t. split; [done|]. split; [done|].
  unfold pong. rewrite Hp. simpl. rewrite Hf. reflexivity.
Qed.

(** The ack of a heartbeat sent in FinishingGame, arriving in
    FinishingGame. *)
Lemma pong_finishing `{EngineProtocol} e :
  m_pinging e = true ->
  state e = FinishingGame -> m_pingState e = FinishingGame ->
  state (pong e) = Idle
  /\ m_pinging (pong e) = false
  /\ exists t, m_trace (pong e) = m_trace e ++ t
               /\ countOf SigReady t = 1%nat.
Proof.
  intros Hp Hs Hb.
  destruct (pong_eq e Hp) as (b & t & Hc & _ & ->).
  rewrite !bool_decide_eq_true_2 by done. simpl.
  repeat split. exists (t ++ [SigReady]).
  split; [by rewrite app_assoc|].
  rewrite countOf_app, Hc. reflexivity.
Qed.

(** ** The heartbeat *)

(** C1.  When the heartbeat timer fires on a session with a heartbeat
    outstanding, [onPingTimeout] leaves the session with the
    awaiting-heartbeat flag cleared, in state Disconnected and with an empty
    outbound buffer, and what it adds to the trace holds exactly one
    forfeiture report, whose cause is the stalled connection. *)
Theorem onPingTimeout_fatal (e : ChessEngine) :
  m_pinging e = true ->
  m_pinging (onPingTimeout e) = false
  /\ state (onPingTimeout e) = Disconnected
  /\ m_writeBuffer (onPingTimeout e) = []
  /\ exists t, m_trace (onPingTimeout e) = m_trace e ++ t
               /\ forfeitsOf t = [WinByStalledConnection].
Proof.
  intros _. unfold onPingTimeout, closeConnection.
  case_bool_decide as Hs; simpl in *.
  - repeat split; try done.
    eexists. split; [rewrite <- app_assoc; reflexivity | reflexivity].
  - repeat split; try done.
    eexists. split; [rewrite <- !app_assoc; reflexivity | reflexivity].
Qed.

Lemma onPingTimeout_fatal_witness :
  m_pinging (@ping pingingProtocol (onProtocolStart (start firstEngine))) = true
  /\ state (onPingTimeout
              (@ping pingingProtocol (onProtocolStart (start firstEngine))))
     = Disconnected.
Proof.
  split; [reflexivity|].
  apply (onPingTimeout_fatal
           (@ping pingingProtocol (onProtocolStart (start firstEngine)))).
  reflexivity.
Defined.

(** C5.  [ping] is a no-op, leaving the whole session (state, baseline,
    buffer, timer) and the trace as they were, whenever a heartbeat is
    already outstanding, the state is NotStarted or Disconnected, or the
    send-heartbeat primitive reports failure. *)
Theorem ping_noop `{EngineProtocol} (e : ChessEngine) :
  m_pinging e = true \/ state e = NotStarted \/ state e = Disconnected
  \/ fst (sendPing e) = false ->
  ping e = e.
Proof.
  intros Hc. unfold ping.
  destruct (m_pinging e) eqn:Hp; [done|].
  case_bool_decide as Hn; [done|].
  case_bool_decide as Hd; [done|].
  destruct Hc as [Hc | [Hc | [Hc | Hc]]]; try done.
  unfold sendPing in *. destruct (sendPingSucceeds e); [discriminate Hc | done].
Qed.

Lemma ping_noop_witness :
  m_pinging (@ping pingingProtocol (onProtocolStart (start firstEngine))) = true
  /\ @ping pingingProtocol
       (@ping pingingProtocol (onProtocolStart (start firstEngine)))
     = @ping pingingProtocol (onProtocolStart (start firstEngine)).
Proof.
  split; [reflexivity|].
  apply (@ping_noop pingingProtocol). left. reflexivity.
Defined.

(** ** The write path *)

(** C8.  [write] on a Disconnected session returns the session as it was:
    the outbound buffer is not touched and nothing reaches the device. *)
Theorem write_disconnected_noop (line : string) (e : ChessEngine) :
  state e = Disconnected ->
  write line e = e
  /\ m_writeBuffer (write line e) = m_writeBuffer e
  /\ streamOf (m_trace (write line e)) = streamOf (m_trace e).
Proof. intros Hs. by rewrite write_dropped. Qed.

Lemma write_disconnected_noop_witness :
  state (quit (start firstEngine)) = Disconnected
  /\ write "go" (quit (start firstEngine)) = quit (start firstEngine).
Proof.
  split; [reflexivity|].
  apply (write_disconnected_noop "go" (quit (start firstEngine))).
  reflexivity.
Defined.

(** ** Quitting *)



(** C3, as the code has it.  On a session that is not Disconnected, lines
    passed to [write] while the state is NotStarted or a heartbeat is
    outstanding are appended to the outbound buffer, in order, and nothing
    is sent; a flush is a no-op meanwhile.  The first flush that goes
    through with the buffer intact puts them on the stream in the order
    submitted: [start] does for a session that is NotStarted, the heartbeat
    ack does for one that is waiting. *)
Theorem deferred_writes_flushed_in_order `{EngineProtocol}
    (lines : list string) (e : ChessEngine) :
  state e <> Disconnected ->
  state e = NotStarted \/ m_pinging e = true ->
  writes lines e = set_writeBuffer (m_writeBuffer e ++ lines) e
  /\ flushWriteBuffer (writes lines e) = writes lines e
  /\ (forall e2,
        m_writeBuffer e2 = m_writeBuffer (writes lines e) ->
        state e2 <> Disconnected -> state e2 <> NotStarted ->
        m_pinging e2 = false ->
        m_writeBuffer (flushWriteBuffer e2) = []
        /\ streamOf (m_trace (flushWriteBuffer e2))
           = streamOf (m_trace e2) ++ onStream (m_writeBuffer e ++ lines))
  /\ (state e = NotStarted ->
      streamOf (m_trace (start (writes lines e)))
      = streamOf (m_trace e) ++ onStream (m_writeBuffer e ++ lines))
  /\ (state e <> NotStarted ->
      streamOf (m_trace (pong (writes lines e)))
      = streamOf (m_trace e) ++ onStream (m_writeBuffer e ++ lines)).
Proof.
  intros Hd Hq. unfold writes. rewrite writes_deferred by done.
  split; [done|]. split.
  { apply flush_blocked. simpl. tauto. }
  split.
  { intros e2 Hb Hd2 Hn2 Hp2. rewrite flush_direct by done. simpl in *.
    split; [done|].
    by rewrite streamOf_app, streamOf_sent, Hb. }
  split.
  - intros Hn. unfold start. simpl.
    rewrite bool_decide_eq_false_2 by (unfold state in *; simpl; tauto).
    rewrite flush_direct by (unfold state; simpl; done).
    simpl. rewrite !streamOf_app, streamOf_sent. simpl.
    by rewrite app_nil_r.
  - intros Hn. destruct Hq as [Hq | Hp]; [done|].
    unfold pong. simpl. rewrite Hp. simpl.
    rewrite flush_direct by (unfold state in *; simpl; done).
    simpl.
    assert (forall t, streamOf ((m_trace e
              ++ flat_map (sendEffects (set_pinging false (timer_stop
                   (set_writeBuffer (m_writeBuffer e ++ lines) e))))
                   (m_writeBuffer e ++ lines)) ++ t)
            = (streamOf (m_trace e) ++ onStream (m_writeBuffer e ++ lines))
              ++ streamOf t) as Hst.
    { intros t. by rewrite !streamOf_app, streamOf_sent. }
    repeat case_bool_decide.
    + simpl. rewrite Hst. simpl. by rewrite app_nil_r.
    + rewrite ping_stream. simpl. rewrite <- (app_nil_r (m_trace e ++ _)).
      rewrite Hst. simpl. by rewrite app_nil_r.
    + simpl. rewrite Hst. simpl. by rewrite app_nil_r.
Qed.

Lemma deferred_writes_flushed_in_order_witness :
  state waitingEngine <> Disconnected
  /\ (state waitingEngine = NotStarted \/ m_pinging waitingEngine = true)
  /\ writes ["new"; "go"] waitingEngine
     = set_writeBuffer (m_writeBuffer waitingEngine ++ ["new"; "go"])
         waitingEngine.
Proof.
  split; [discriminate|]. split; [right; reflexivity|].
  apply (@deferred_writes_flushed_in_order pingingProtocol ["new"; "go"]
           waitingEngine); [discriminate | right; reflexivity].
Defined.

(** C3 as stated fails.  A line written while a heartbeat is outstanding
    is queued, and when that heartbeat times out the queue is discarded:
    the flush that follows goes through and the line never reaches the
    stream.  And on a session that has quit with its heartbeat still
    outstanding, [write] does not even queue the line. *)
Lemma deferred_write_lost :
  m_pinging waitingEngine = true
  /\ m_writeBuffer (write "go" waitingEngine) = ["go"]
  /\ m_writeBuffer (onPingTimeout (write "go" waitingEngine)) = []
  /\ m_pinging (onPingTimeout (write "go" waitingEngine)) = false
  /\ state (onPingTimeout (write "go" waitingEngine)) <> NotStarted
  /\ streamOf (m_trace (flushWriteBuffer
                          (onPingTimeout (write "go" waitingEngine)))) = []
  /\ m_pinging (quit waitingEngine) = true
  /\ m_writeBuffer (write "go" (quit waitingEngine)) = [].
Proof. repeat split; try reflexivity. discriminate. Qed.

(** ** Option edits *)

(** C4, as the code has it.  While the state is NotStarted or Starting,
    [setOption] only appends the edit to the pending queue and issues
    nothing.  [onProtocolStart] then moves to Idle, flushes the outbound
    buffer, and after that applies every pending edit once, in submission
    order, and clears the queue: an edit whose option is declared and
    accepts the value stores it and sends exactly one set-option command,
    any other edit leaves a diagnostic and sends none. *)
Theorem pending_edits_applied_after_start
    (edits : list CustomSetting) (e : ChessEngine) :
  state e = NotStarted \/ state e = Starting ->
  setOptions edits e = set_optionBuffer (m_optionBuffer e ++ edits) e
  /\ m_trace (setOptions edits e) = m_trace e
  /\ state (onProtocolStart (setOptions edits e)) = Idle
  /\ m_optionBuffer (onProtocolStart (setOptions edits e)) = []
  /\ m_trace (onProtocolStart (setOptions edits e))
     = m_trace e
       ++ flat_map (sendEffects e) (m_writeBuffer e)
       ++ (editEffect (m_name e) (m_options e) <$> (m_optionBuffer e ++ edits))
  /\ optionsSentOf (m_trace (onProtocolStart (setOptions edits e)))
     = optionsSentOf (m_trace e)
       ++ (commandFor
             <$> filter (fun s => accepts (m_options e) s = true)
                   (m_optionBuffer e ++ edits))
  /\ m_options (onProtocolStart (setOptions edits e))
     = foldl applyEdit (m_options e) (m_optionBuffer e ++ edits).
Proof.
  intros Hs. rewrite setOptions_queued by done.
  split; [done|]. split; [done|].
  rewrite onProtocolStart_eq. simpl.
  repeat split; try done.
  rewrite !optionsSentOf_app, optionsSentOf_sent, optionsSentOf_edits.
  done.
Qed.

Lemma pending_edits_applied_after_start_witness :
  (state hashEngine = NotStarted \/ state hashEngine = Starting)
  /\ optionsSentOf
       (m_trace (onProtocolStart
                   (setOptions [mkSetting "Hash" (QVString "128")]
                      hashEngine)))
     = [("Hash", "128")]
  /\ m_options (onProtocolStart
                  (setOptions [mkSetting "Hash" (QVString "128")] hashEngine))
     = [opt_setValue (QVString "128")
          (mkOption "Hash" (QVString "64")
             (fun v => negb (bool_decide (v = QVInvalid))))].
Proof.
  split; [right; reflexivity|].
  pose proof (pending_edits_applied_after_start
                [mkSetting "Hash" (QVString "128")] hashEngine
                (or_intror eq_refl)) as (_ & _ & _ & _ & _ & Hsent & Hopts).
  split; [rewrite Hsent | rewrite Hopts]; reflexivity.
Defined.

(** C4 as stated fails.  An edit queued during Starting that names an
    option the engine has not declared is applied after the transition to
    Idle without any set-option command being sent: one edit, no command. *)
Lemma pending_edit_without_command :
  state (start firstEngine) = Starting
  /\ m_optionBuffer (setOption "Hash" (QVString "128") (start firstEngine))
     = [mkSetting "Hash" (QVString "128")]
  /\ optionsSentOf
       (m_trace (onProtocolStart
                   (setOption "Hash" (QVString "128") (start firstEngine))))
     = []
  /\ m_optionBuffer
       (onProtocolStart
          (setOption "Hash" (QVString "128") (start firstEngine)))
     = [].
Proof. repeat split; reflexivity. Qed.

(** ** The heartbeat ack *)

(** C2, as the code has it.  On a session awaiting a heartbeat ack, [pong]
    behaves as follows.  If the state is FinishingGame and so was the
    baseline, the state becomes Idle and exactly one ready signal is
    emitted.  If the state is FinishingGame and the baseline differs,
    [ping] is called at once on the flushed session and no ready signal is
    emitted: when that heartbeat goes out the session is waiting again with
    baseline FinishingGame and the timer armed, and its ack settles the
    session in Idle with exactly one ready signal; when [sendPing] reports
    failure no heartbeat is outstanding, no timer is armed and a further ack
    does nothing.  If the state is not FinishingGame, exactly one ready
    signal is emitted and the state stays as it is. *)
Theorem pong_settles `{EngineProtocol} (e : ChessEngine) :
  m_pinging e = true ->
  (state e = FinishingGame -> m_pingState e = FinishingGame ->
   state (pong e) = Idle
   /\ m_pinging (pong e) = false
   /\ exists t, m_trace (pong e) = m_trace e ++ t
                /\ countOf SigReady t = 1%nat)
  /\ (state e = FinishingGame -> m_pingState e <> FinishingGame ->
      pong e = ping (flushWriteBuffer (set_pinging false (timer_stop e)))
      /\ state (pong e) = FinishingGame
      /\ (exists t, m_trace (pong e) = m_trace e ++ t
                    /\ countOf SigReady t = 0%nat)
      /\ (fst (sendPing (flushWriteBuffer (set_pinging false (timer_stop e))))
          = true ->
          m_pinging (pong e) = true
          /\ isActive (m_pingTimer (pong e)) = true
          /\ m_pingState (pong e) = FinishingGame
          /\ state (pong (pong e)) = Idle
          /\ exists t, m_trace (pong (pong e)) = m_trace (pong e) ++ t
                       /\ countOf SigReady t = 1%nat)
      /\ (fst (sendPing (flushWriteBuffer (set_pinging false (timer_stop e))))
          = false ->
          pong e = flushWriteBuffer (set_pinging false (timer_stop e))
          /\ m_pinging (pong e) = false
          /\ isActive (m_pingTimer (pong e)) = false
          /\ pong (pong e) = pong e))
  /\ (state e <> FinishingGame ->
      state (pong e) = state e
      /\ exists t, m_trace (pong e) = m_trace e ++ t
                   /\ countOf SigReady t = 1%nat).
Proof.
  intros Hp. split; [by apply pong_finishing|]. split.
  - intros Hs Hb.
    destruct (pong_eq e Hp) as (b & t & Hc & Hf & Hpong).
    rewrite Hpong, Hf.
    rewrite (bool_decide_eq_true_2 _ Hs), (bool_decide_eq_false_2 _ Hb).
    set (e0 := set_writeBuffer b (emits t (set_pinging false (timer_stop e)))).
    assert (state e0 = FinishingGame) as Hs0 by exact Hs.
    split; [done|]. split; [by rewrite ping_state|]. split.
    { destruct (ping_ready e0) as (t' & Ht' & Hc').
      exists (t ++ t'). split.
      - rewrite Ht'. subst e0. simpl. by rewrite app_assoc.
      - by rewrite countOf_app, Hc, Hc'. }
    split; [|intros Hfail;
              destruct (ping_cases e0) as [Hno | [Hyes _]];
              [|rewrite Hfail in Hyes; discriminate Hyes];
              rewrite Hno; repeat split; unfold pong; reflexivity].
    intros Hsent.
    destruct (ping_cases e0) as [Hno | [_ Hyes]].
    { exfalso. unfold ping, sendPing in *.
      assert (m_pinging e0 = false) as Hp0 by reflexivity.
      rewrite Hp0 in Hno.
      rewrite !bool_decide_eq_false_2 in Hno
        by (rewrite Hs0; discriminate).
      destruct (sendPingSucceeds e0); [|discriminate Hsent].
      simpl in Hno. apply (f_equal m_pinging) in Hno. simpl in Hno.
      discriminate Hno. }
    rewrite Hyes. split; [done|]. split; [done|]. split; [exact Hs0|].
    assert (state (timer_start 10000
              (set_pingState (state e0) (set_pinging true (emit ProtoPing e0))))
            = FinishingGame) as Hs1 by exact Hs0.
    destruct (pong_finishing
                (timer_start 10000
                   (set_pingState (state e0)
                      (set_pinging true (emit ProtoPing e0))))
                eq_refl Hs1 Hs0) as (Hi & _ & Hr).
    split; [exact Hi | exact Hr].
  - intros Hs.
    destruct (pong_eq e Hp) as (b & t & Hc & _ & ->).
    rewrite (bool_decide_eq_false_2 _ Hs). simpl.
    split; [done|]. exists (t ++ [SigReady]).
    split; [by rewrite app_assoc|].
    rewrite countOf_app, Hc. reflexivity.
Qed.

Lemma pong_settles_witness :
  m_pinging finishedWhileWaiting = true
  /\ state (@pong pingingProtocol finishedWhileWaiting) = FinishingGame
  /\ state (@pong pingingProtocol (@pong pingingProtocol finishedWhileWaiting))
     = Idle.
Proof.
  split; [reflexivity|].
  destruct (@pong_settles pingingProtocol finishedWhileWaiting eq_refl)
    as (_ & H2 & _).
  destruct (H2 eq_refl ltac:(discriminate)) as (_ & Hs & _ & H4 & _).
  split; [exact Hs|].
  destruct (H4 eq_refl) as (_ & _ & _ & Hi & _). exact Hi.
Defined.

(** C2 as stated fails.  A heartbeat went out while Observing, the game
    ended during the wait, and the protocol cannot send a heartbeat in
    FinishingGame.  The ack calls [ping], whose [sendPing] reports failure:
    no second heartbeat is sent, no timer is armed, no ready signal is
    emitted, and a further ack does nothing, so ready never comes. *)
Lemma pong_without_second_heartbeat :
  m_pinging stalledFinish = true
  /\ state stalledFinish = FinishingGame
  /\ m_pingState stalledFinish = Observing
  /\ m_pinging (@pong quietFinishProtocol stalledFinish) = false
  /\ isActive (m_pingTimer (@pong quietFinishProtocol stalledFinish)) = false
  /\ countOf ProtoPing (m_trace (@pong quietFinishProtocol stalledFinish))
     = countOf ProtoPing (m_trace stalledFinish)
  /\ countOf SigReady (m_trace (@pong quietFinishProtocol stalledFinish))
     = 0%nat
  /\ @pong quietFinishProtocol (@pong quietFinishProtocol stalledFinish)
     = @pong quietFinishProtocol stalledFinish.
Proof.
  do 7 (split; [vm_compute; reflexivity|]).
  vm_compute; reflexivity.
Qed.

(** ** Session ids *)

Lemma wrap_int_small z : - 2 ^ 31 <= z < 2 ^ 31 -> wrap_int z = z.
Proof.
  intros Hz. unfold wrap_int.
  rewrite Z.mod_small by lia. lia.
Qed.

(** While fewer than 2^31 operations have run, the counter is the number
    of sessions alive. *)
Lemma run_count ops p :
  m_count p = Z.of_nat (length (engines p)) ->
  Z.of_nat (length (engines p) + length ops) < 2 ^ 31 ->
  m_count (run ops p) = Z.of_nat (length (engines (run ops p)))
  /\ (length (engines (run ops p)) <= length (engines p) + length ops)%nat.
Proof.
  unfold run. revert p.
  induction ops as [|op ops IH]; intros p Hc Hb; simpl.
  { split; [done | lia]. }
  simpl in Hb.
  assert (m_count (step p op) = Z.of_nat (length (engines (step p op)))
          /\ (length (engines (step p op)) <= S (length (engines p)))%nat)
    as [Hc' Hl'].
  { destruct op as [d | k]; simpl.
    - rewrite length_app. simpl. rewrite wrap_int_small by lia.
      split; lia.
    - destruct (engines p !! k) as [e|] eqn:Hk; simpl.
      + apply lookup_lt_Some in Hk.
        unfold destruct_engine. rewrite length_delete by eauto using lookup_lt_is_Some_2.
        rewrite wrap_int_small by lia. split; lia.
      + split; [done | lia]. }
  destruct (IH (step p op) Hc') as [H1 H2]; [lia|].
  split; [exact H1 | lia].
Qed.

(** Constructions in a row hand out the counter's successive values. *)
Lemma run_new devices p :
  0 <= m_count p ->
  m_count p + Z.of_nat (length devices) < 2 ^ 31 ->
  assigned (run (OpNew <$> devices) p)
  = assigned p
    ++ ((fun i => m_count p + Z.of_nat i) <$> seq 0 (length devices)).
Proof.
  unfold run. revert p.
  induction devices as [|d devices IH]; intros p H0 Hb; simpl.
  { by rewrite app_nil_r. }
  simpl in Hb. rewrite IH; simpl.
  - rewrite <- app_assoc. f_equal. simpl. f_equal; [f_equal; lia|].
    rewrite wrap_int_small by lia.
    rewrite <- (fmap_S_seq 0), <- list_fmap_compose.
    apply list_fmap_ext. intros i x _. simpl. lia.
  - rewrite wrap_int_small by lia. lia.
  - rewrite wrap_int_small by lia. lia.
Qed.

(** C7, as the code has it.  A construction assigns the number of sessions
    alive at that moment as the id.  Sessions constructed one after the
    other, with no destruction in between, therefore get strictly increasing
    ids; nothing more holds, since a destruction lowers the counter again. *)
Theorem session_ids_count_live
    (ops : list ProcessOp) (devices : list QIODevice) :
  Z.of_nat (length ops + length devices) < 2 ^ 31 ->
  m_count (run ops initialProcess)
  = Z.of_nat (length (engines (run ops initialProcess)))
  /\ assigned (run (OpNew <$> devices) (run ops initialProcess))
     = assigned (run ops initialProcess)
       ++ ((fun i => Z.of_nat (length (engines (run ops initialProcess)) + i))
             <$> seq 0 (length devices))
  /\ forall i j a b,
       (i < j)%nat ->
       assigned (run (OpNew <$> devices) (run ops initialProcess))
         !! (length (assigned (run ops initialProcess)) + i)%nat = Some a ->
       assigned (run (OpNew <$> devices) (run ops initialProcess))
         !! (length (assigned (run ops initialProcess)) + j)%nat = Some b ->
       a < b.
Proof.
  intros Hb.
  destruct (run_count ops initialProcess eq_refl) as [Hc Hl]; [simpl; lia|].
  simpl in Hl.
  assert (assigned (run (OpNew <$> devices) (run ops initialProcess))
          = assigned (run ops initialProcess)
            ++ ((fun i => Z.of_nat (length (engines (run ops initialProcess)) + i))
                  <$> seq 0 (length devices))) as Hids.
  { rewrite run_new by lia. f_equal.
    apply list_fmap_ext. intros i x _. simpl. lia. }
  split; [exact Hc|]. split; [exact Hids|].
  intros i j a b Hij Ha Hb'. rewrite Hids in Ha, Hb'.
  rewrite lookup_app_r in Ha by lia. rewrite lookup_app_r in Hb' by lia.
  replace (length (assigned (run ops initialProcess)) + i
           - length (assigned (run ops initialProcess)))%nat with i in Ha by lia.
  replace (length (assigned (run ops initialProcess)) + j
           - length (assigned (run ops initialProcess)))%nat with j in Hb' by lia.
  rewrite list_lookup_fmap in Ha, Hb'.
  destruct (seq 0 (length devices) !! i) as [x|] eqn:Hx; [|discriminate].
  destruct (seq 0 (length devices) !! j) as [y|] eqn:Hy; [|discriminate].
  apply lookup_seq in Hx as [-> _]. apply lookup_seq in Hy as [-> _].
  simpl in Ha, Hb'. inversion Ha. inversion Hb'. lia.
Qed.

Lemma session_ids_count_live_witness :
  Z.of_nat (length [OpNew openDevice; OpDelete 0]
            + length [openDevice; openDevice]) < 2 ^ 31
  /\ assigned (run (OpNew <$> [openDevice; openDevice])
                 (run [OpNew openDevice; OpDelete 0] initialProcess))
     = [0; 0; 1].
Proof.
  split; [reflexivity|].
  destruct (session_ids_count_live [OpNew openDevice; OpDelete 0]
              [openDevice; openDevice] eq_refl) as (_ & Hids & _).
  rewrite Hids. reflexivity.
Defined.

(** C7 as stated fails.  Construct two sessions, destroy the first,
    construct a third: the ids handed out are 0, 1, 1.  The third id is not
    greater than the second, and the two sessions then alive share it. *)
Lemma session_id_reused :
  assigned (run [OpNew openDevice; OpNew openDevice; OpDelete 0;
                 OpNew openDevice] initialProcess)
  = [0; 1; 1]
  /\ m_id <$> engines (run [OpNew openDevice; OpNew openDevice; OpDelete 0;
                            OpNew openDevice] initialProcess)
     = [1; 1].
Proof. split; reflexivity. Qed.

(** ** Captures in Crazyhouse *)

Section Crazyhouse.
Import CrazyhouseBoard.

Lemma handCount_addToHand s t s' t' b sq stm cs :
  handCount s' t' (mkBoard sq (addToHand s t (hand b)) stm cs)
  = if bool_decide ((s', t') = (s, t)) then S (handCount s t b)
    else handCount s' t' b.
Proof.
  unfold handCount, addToHand. simpl.
  case_bool_decide as E.
  - inversion E; subst. by rewrite lookup_insert_eq.
  - by rewrite lookup_insert_ne by congruence.
Qed.

Lemma handCount_removeFromHand s t s' t' h sq stm cs :
  handCount s' t' (mkBoard sq (removeFromHand s t h) stm cs)
  = if bool_decide ((s', t') = (s, t))
    then pred (default 0%nat (h !! (s, t)))
    else default 0%nat (h !! (s', t')).
Proof.
  unfold handCount, removeFromHand. simpl.
  case_bool_decide as E.
  - inversion E; subst. by rewrite lookup_insert_eq.
  - by rewrite lookup_insert_ne by congruence.
Qed.

Lemma otherSide_involutive s : otherSide (otherSide s) = s.
Proof. by destruct s. Qed.

Lemma handPieceType_promoted t :
  PromotedKnight <= t -> handPieceType t = Pawn.
Proof. intros Ht. unfold handPieceType. by rewrite bool_decide_eq_true_2. Qed.

Lemma squares_restored (sq : gmap Z Piece) src tgt p c placed :
  src <> tgt -> sq !! src = Some p -> sq !! tgt = Some c ->
  <[src := p]> (<[tgt := c]> (<[tgt := placed]> (delete src sq))) = sq.
Proof.
  intros Hne Hp Hc. apply map_eq. intros k.
  destruct (decide (k = src)) as [->|Hk].
  { by rewrite lookup_insert_eq. }
  rewrite lookup_insert_ne by done.
  destruct (decide (k = tgt)) as [->|Hk'].
  { by rewrite lookup_insert_eq. }
  by rewrite !lookup_insert_ne, lookup_delete_ne by done.
Qed.

(** C6, as the header documents it.  Capturing a promoted piece (one of
    the four [CrazyhousePieceType]s, each of them a promoted pawn) adds
    one pawn to the capturing side's hand and changes no other hand count:
    not that of the promoted type, not that of any standard type, not the
    opponent's.  Undoing the capture takes that one pawn out of the hand
    again and puts the promoted piece back on its square. *)
Theorem capture_promoted_gives_pawn
    (b : Board) (move : Move) (piece captured : Piece) :
  sourceSquare move <> 0 ->
  sourceSquare move <> targetSquare move ->
  pieceAt (sourceSquare move) b = Some piece ->
  side piece = sideToMove b ->
  (promotion move <> NoPiece -> piece = mkPiece (sideToMove b) Pawn) ->
  pieceAt (targetSquare move) b = Some captured ->
  side captured <> sideToMove b ->
  PromotedKnight <= type captured <= PromotedQueen ->
  exists b',
    vMakeMove move b = Some b'
    /\ handCount (sideToMove b) Pawn b'
       = S (handCount (sideToMove b) Pawn b)
    /\ (forall s t, (s, t) <> (sideToMove b, Pawn) ->
                    handCount s t b' = handCount s t b)
    /\ exists b'',
         vUndoMove move b' = Some b''
         /\ (forall s t, handCount s t b'' = handCount s t b)
         /\ pieceAt (targetSquare move) b'' = Some captured
         /\ squares b'' = squares b
         /\ sideToMove b'' = sideToMove b
         /\ captures b'' = captures b.
Proof.
  intros Hsrc Hne Hp Hside Hprom Hc Hcside [Hlo Hhi].
  unfold vMakeMove.
  rewrite (bool_decide_eq_false_2 _ Hsrc), Hp.
  rewrite bool_decide_eq_false_2 by (intros Hx; by apply Hx).
  rewrite Hc, (bool_decide_eq_false_2 _ Hcside).
  rewrite handPieceType_promoted by done.
  eexists. split; [reflexivity|]. split.
  { rewrite handCount_addToHand. by rewrite bool_decide_eq_true_2. }
  split.
  { intros s t Hst. rewrite handCount_addToHand.
    by rewrite bool_decide_eq_false_2. }
  unfold vUndoMove. simpl.
  rewrite (bool_decide_eq_false_2 _ Hsrc).
  unfold pieceAt at 1. simpl. rewrite lookup_insert_eq.
  rewrite handPieceType_promoted by done.
  rewrite otherSide_involutive.
  eexists. split; [reflexivity|]. split.
  { intros s t. rewrite handCount_removeFromHand.
    unfold addToHand. case_bool_decide as E.
    - inversion E; subst. by rewrite lookup_insert_eq.
    - by rewrite lookup_insert_ne by congruence. }
  assert ((if bool_decide (promotion move = NoPiece)
           then (if bool_decide (promotion move = NoPiece) then piece
                 else mkPiece (sideToMove b)
                        (promotedPieceType (promotion move)))
           else mkPiece (sideToMove b) Pawn) = piece) as ->.
  { case_bool_decide as E; [done|]. symmetry. by apply Hprom. }
  simpl. unfold pieceAt in *.
  rewrite squares_restored by done.
  repeat split; done.
Qed.

Lemma capture_promoted_gives_pawn_witness :
  pieceAt 1 rookTakesPromotedQueen = Some (mkPiece White Rook)
  /\ pieceAt 2 rookTakesPromotedQueen = Some (mkPiece Black PromotedQueen)
  /\ exists b',
       vMakeMove (mkMove 1 2 NoPiece) rookTakesPromotedQueen = Some b'
       /\ handCount White Pawn b' = 1%nat.
Proof.
  split; [reflexivity|]. split; [reflexivity|].
  destruct (capture_promoted_gives_pawn rookTakesPromotedQueen
              (mkMove 1 2 NoPiece) (mkPiece White Rook)
              (mkPiece Black PromotedQueen))
    as (b' & Hmake & Hpawn & _).
  - discriminate.
  - discriminate.
  - reflexivity.
  - reflexivity.
  - intros Hx. by destruct Hx.
  - reflexivity.
  - discriminate.
  - unfold PromotedKnight, PromotedQueen. simpl. lia.
  - exists b'. split; [exact Hmake | exact Hpawn].
Defined.

(** C6 as stated fails.  White's rook takes a black promoted queen: the
    hand of White gains one pawn, and holds no knight (and no queen)
    afterwards. *)
Lemma captured_promoted_queen_is_no_knight :
  (fun b' => (handCount White Pawn b', handCount White Knight b',
              handCount White Queen b', handCount White PromotedQueen b'))
    <$> vMakeMove (mkMove 1 2 NoPiece) rookTakesPromotedQueen
  = Some (1, 0, 0, 0)%nat.
Proof. reflexivity. Qed.

End Crazyhouse.

(** ** The loops in closed form *)

Lemma writes_eq lines e :
  foldl (fun acc l => write l acc) e lines
  = if bool_decide (state e = Disconnected) then e
    else if bool_decide (state e = NotStarted) || m_pinging e
         then set_writeBuffer (m_writeBuffer e ++ lines) e
         else emits (flat_map (sendEffects e) lines) e.
Proof.
  case_bool_decide as Hd; [by apply writes_dropped|].
  case_bool_decide as Hn; simpl.
  { apply writes_deferred; auto. }
  destruct (m_pinging e) eqn:Hp.
  - apply writes_deferred; auto.
  - by apply writes_direct.
Qed.

Lemma flush_eq e :
  flushWriteBuffer e
  = if m_pinging e || bool_decide (state e = NotStarted) then e
    else set_writeBuffer []
           (if bool_decide (state e = Disconnected) then e
            else emits (flat_map (sendEffects e) (m_writeBuffer e)) e).
Proof.
  unfold flushWriteBuffer.
  destruct (m_pinging e) eqn:Hp; [done|].
  case_bool_decide as Hn; simpl; [done|].
  rewrite writes_eq, Hp.
  rewrite (bool_decide_eq_false_2 _ Hn). simpl. done.
Qed.

Lemma setOptions_eq edits e :
  foldl (fun acc s => setOption (cs_name s) (cs_value s) acc) e edits
  = if bool_decide (state e = Starting) || bool_decide (state e = NotStarted)
    then set_optionBuffer (m_optionBuffer e ++ edits) e
    else emits (editEffect (m_name e) (m_options e) <$> edits)
           (set_options (foldl applyEdit (m_options e) edits) e).
Proof.
  change (foldl (fun acc s => setOption (cs_name s) (cs_value s) acc) e edits)
    with (setOptions edits e).
  case_bool_decide as Hs; simpl.
  { apply setOptions_queued; auto. }
  case_bool_decide as Hn.
  - apply setOptions_queued; auto.
  - by apply setOptions_applied.
Qed.

Lemma setOption_eq n v e :
  setOption n v e
  = if bool_decide (state e = Starting) || bool_decide (state e = NotStarted)
    then set_optionBuffer (m_optionBuffer e ++ [mkSetting n v]) e
    else emits [editEffect (m_name e) (m_options e) (mkSetting n v)]
           (set_options (applyEdit (m_options e) (mkSetting n v)) e).
Proof.
  case_bool_decide as Hs; simpl.
  { apply setOption_queued; auto. }
  case_bool_decide as Hn.
  - apply setOption_queued; auto.
  - by apply setOption_applied.
Qed.

(** ** More facts about traces *)

Lemma debugOutOf_app t1 t2 :
  debugOutOf (t1 ++ t2) = debugOutOf t1 ++ debugOutOf t2.
Proof. unfold debugOutOf. apply omap_app. Qed.

Lemma debugOutOf_sent e lines :
  debugOutOf (flat_map (sendEffects e) lines) = lines.
Proof.
  induction lines as [|l lines IH]; [done|].
  simpl. by rewrite IH.
Qed.

Lemma debugOutOf_edits player os edits :
  debugOutOf (editEffect player os <$> edits) = [].
Proof.
  induction edits as [|s edits IH]; [done|].
  rewrite fmap_cons.
  change (editEffect player os s :: (editEffect player os <$> edits))
    with ([editEffect player os s] ++ (editEffect player os <$> edits)).
  rewrite debugOutOf_app, IH. unfold editEffect.
  destruct (findOption (cs_name s) os) as [o|]; [|done].
  by destruct (opt_isValid o (cs_value s)).
Qed.

Lemma forfeitsOf_edits player os edits :
  forfeitsOf (editEffect player os <$> edits) = [].
Proof.
  induction edits as [|s edits IH]; [done|].
  rewrite fmap_cons.
  change (editEffect player os s :: (editEffect player os <$> edits))
    with ([editEffect player os s] ++ (editEffect player os <$> edits)).
  rewrite forfeitsOf_app, IH. unfold editEffect.
  destruct (findOption (cs_name s) os) as [o|]; [|done].
  by destruct (opt_isValid o (cs_value s)).
Qed.

Lemma onStream_app l1 l2 : onStream (l1 ++ l2) = onStream l1 ++ onStream l2.
Proof. unfold onStream. apply fmap_app. Qed.

(** ** Calls on a session given by its fields *)

(** Evaluate the setters, innermost first. *)
Ltac engine_simpl :=
  cbv beta iota zeta delta
    [emits emit setState set_pingState set_pinging set_pingTimer
     set_writeBuffer set_optionBuffer set_options set_ioDevice
     set_whiteEvalPov timer_start timer_stop disconnect_readChannelFinished
     ioDevice_close startProtocol sendQuit sendOption emitForfeit
     ChessPlayer_closeConnection setTimeControl state
     m_state m_name m_whiteEvalPov m_id m_pingState m_pinging m_pingTimer
     m_writeBuffer m_optionBuffer m_options m_ioDevice m_trace
     singleShot isActive interval isOpen readChannelFinished_connected] in *.

Lemma flush_mk s nm w id ps p tm wb ob os d tr :
  flushWriteBuffer (mkEngine s nm w id ps p tm wb ob os d tr)
  = if p || bool_decide (s = NotStarted)
    then mkEngine s nm w id ps p tm wb ob os d tr
    else mkEngine s nm w id ps p tm [] ob os d
           (tr ++ if bool_decide (s = Disconnected) then []
                  else flat_map
                         (sendEffects
                            (mkEngine s nm w id ps p tm wb ob os d tr)) wb).
Proof.
  rewrite flush_eq. engine_simpl.
  destruct (p || bool_decide (s = NotStarted)); [done|].
  case_bool_decide; [by rewrite app_nil_r | done].
Qed.

Lemma writes_mk lines s nm w id ps p tm wb ob os d tr :
  foldl (fun acc l => write l acc) (mkEngine s nm w id ps p tm wb ob os d tr)
    lines
  = if bool_decide (s = Disconnected)
    then mkEngine s nm w id ps p tm wb ob os d tr
    else if bool_decide (s = NotStarted) || p
         then mkEngine s nm w id ps p tm (wb ++ lines) ob os d tr
         else mkEngine s nm w id ps p tm wb ob os d
                (tr ++ flat_map
                         (sendEffects
                            (mkEngine s nm w id ps p tm wb ob os d tr))
                         lines).
Proof. rewrite writes_eq. by engine_simpl. Qed.

Lemma setOptions_mk edits s nm w id ps p tm wb ob os d tr :
  foldl (fun acc x => setOption (cs_name x) (cs_value x) acc)
    (mkEngine s nm w id ps p tm wb ob os d tr) edits
  = if bool_decide (s = Starting) || bool_decide (s = NotStarted)
    then mkEngine s nm w id ps p tm wb (ob ++ edits) os d tr
    else mkEngine s nm w id ps p tm wb ob (foldl applyEdit os edits) d
           (tr ++ (editEffect nm os <$> edits)).
Proof. rewrite setOptions_eq. by engine_simpl. Qed.

Lemma setOption_mk n v s nm w id ps p tm wb ob os d tr :
  setOption n v (mkEngine s nm w id ps p tm wb ob os d tr)
  = if bool_decide (s = Starting) || bool_decide (s = NotStarted)
    then mkEngine s nm w id ps p tm wb (ob ++ [mkSetting n v]) os d tr
    else mkEngine s nm w id ps p tm wb ob (applyEdit os (mkSetting n v)) d
           (tr ++ [editEffect nm os (mkSetting n v)]).
Proof. rewrite setOption_eq. by engine_simpl. Qed.

Lemma onProtocolStart_mk s nm w id ps p tm wb ob os d tr :
  onProtocolStart (mkEngine s nm w id ps p tm wb ob os d tr)
  = mkEngine Idle nm w id ps false tm [] [] (foldl applyEdit os ob) d
      (tr ++ flat_map
               (sendEffects (mkEngine s nm w id ps p tm wb ob os d tr)) wb
          ++ (editEffect nm os <$> ob)).
Proof. rewrite onProtocolStart_eq. by engine_simpl. Qed.

(** Write a call out and run it on a session given by its fields. *)
Ltac open_call :=
  unfold invoke, applySettings, start, closeConnection, pong, ping,
    onPingTimeout, quit, sendPing, write.

Ltac engine_eval :=
  repeat (progress (engine_simpl;
                    rewrite ?flush_mk, ?writes_mk, ?setOptions_mk,
                      ?setOption_mk, ?onProtocolStart_mk;
                    simpl in * )).

(** One goal per call and per case of its tests, each run to the end. *)
Ltac by_call c s p ps d :=
  destruct c; open_call;
  [ destruct s, p; engine_eval;
    try (destruct (tc_isValid _); engine_eval)
  | destruct s; engine_eval
  | destruct s; engine_eval
  | engine_eval
  | destruct s; engine_eval
  | destruct s, p; engine_eval;
    try (destruct (sendPingSucceeds _); engine_eval)
  | destruct s, p, ps; engine_eval;
    try (destruct (sendPingSucceeds _); engine_eval)
  | destruct s; engine_eval
  | destruct s, p; engine_eval
  | destruct s, p; engine_eval
  | destruct s, d as [[] ?]; engine_eval ].

Lemma streamOf_edit player os s : streamOf [editEffect player os s] = [].
Proof. apply (streamOf_edits player os [s]). Qed.

Lemma debugOutOf_edit player os s : debugOutOf [editEffect player os s] = [].
Proof. apply (debugOutOf_edits player os [s]). Qed.

Lemma forfeitsOf_edit player os s : forfeitsOf [editEffect player os s] = [].
Proof. apply (forfeitsOf_edits player os [s]). Qed.

(** Rewriting with the observations of a trace. *)
Ltac trace_simpl :=
  rewrite ?streamOf_app, ?debugOutOf_app, ?forfeitsOf_app, ?onStream_app,
    ?streamOf_sent, ?debugOutOf_sent, ?forfeitsOf_sent,
    ?streamOf_edits, ?debugOutOf_edits, ?forfeitsOf_edits,
    ?streamOf_edit, ?debugOutOf_edit, ?forfeitsOf_edit;
  simpl; rewrite ?app_nil_r; simpl.

(** ** Idempotent calls *)

Lemma start_elsewhere e : state e <> NotStarted -> start e = e.
Proof. intros Hs. unfold start. by rewrite bool_decide_eq_true_2. Qed.

(** ** The registry under edits *)

Lemma storeValue_shape n v os :
  opt_name <$> storeValue n v os = opt_name <$> os
  /\ opt_isValid <$> storeValue n v os = opt_isValid <$> os.
Proof.
  induction os as [|o os [IH1 IH2]]; [done|].
  simpl. case_bool_decide; [done|].
  split; [exact (f_equal (cons (opt_name o)) IH1)
         | exact (f_equal (cons (opt_isValid o)) IH2)].
Qed.

Lemma applyEdit_shape os s :
  opt_name <$> applyEdit os s = opt_name <$> os
  /\ opt_isValid <$> applyEdit os s = opt_isValid <$> os.
Proof.
  unfold applyEdit. destruct (accepts os s); [|done].
  apply storeValue_shape.
Qed.

Lemma applyEdits_shape edits os :
  opt_name <$> foldl applyEdit os edits = opt_name <$> os
  /\ opt_isValid <$> foldl applyEdit os edits = opt_isValid <$> os.
Proof.
  revert os. induction edits as [|s edits IH]; intros os; [done|].
  simpl. destruct (IH (applyEdit os s)) as [-> ->].
  apply applyEdit_shape.
Qed.

Lemma applyEdit_valid os s : valuesValid os -> valuesValid (applyEdit os s).
Proof.
  unfold applyEdit, accepts, valuesValid.
  induction os as [|o os IH]; intros Hv; [done|].
  simpl. inversion Hv as [|? ? Ho Hos]; subst.
  case_bool_decide as Hn; simpl.
  - destruct (opt_isValid o (cs_value s)) eqn:V; [|done].
    constructor; [exact V | exact Hos].
  - specialize (IH Hos).
    destruct (findOption (cs_name s) os) as [o'|]; [|done].
    destruct (opt_isValid o' (cs_value s)); [|done].
    constructor; [exact Ho | exact IH].
Qed.

Lemma applyEdits_valid edits os :
  valuesValid os -> valuesValid (foldl applyEdit os edits).
Proof.
  revert os. induction edits as [|s edits IH]; intros os Hv; [done|].
  simpl. apply IH. by apply applyEdit_valid.
Qed.

(** ** What every call keeps *)

Section Invariants.
Context `{EngineProtocol}.

(** A session that may send holds no queued line. *)
Lemma invoke_keeps_buffer_rule c e :
  (sendable e -> m_writeBuffer e = []) ->
  sendable (invoke e c) -> m_writeBuffer (invoke e c) = [].
Proof.
  destruct e as [s nm w id ps p tm wb ob os d tr].
  unfold sendable. intros HA.
  by_call c s p ps d.
  all: intros (Hn & Hd & Hp); try done.
  all: apply HA; done.
Qed.

(** Until a session leaves NotStarted it has no heartbeat outstanding and
    has done nothing to its environment. *)
Lemma invoke_keeps_pristine c e :
  (state e = NotStarted -> m_pinging e = false /\ m_trace e = []) ->
  state (invoke e c) = NotStarted ->
  m_pinging (invoke e c) = false /\ m_trace (invoke e c) = [].
Proof.
  destruct e as [s nm w id ps p tm wb ob os d tr].
  intros HC.
  by_call c s p ps d.
  all: intros Hs; try done.
  all: destruct (HC eq_refl) as [? ?]; done.
Qed.

(** What a call adds to the trace: the writes to the device are mirrored
    on the debug sink, and only a timeout reports a forfeit. *)
Lemma invoke_trace c e :
  exists t,
    m_trace (invoke e c) = m_trace e ++ t
    /\ streamOf t = onStream (debugOutOf t)
    /\ forfeitsOf t
       = if isTimeout c then [WinByStalledConnection] else [].
Proof.
  destruct e as [s nm w id ps p tm wb ob os d tr].
  by_call c s p ps d.
  all: rewrite <- ?app_assoc.
  all: first
         [ by (exists []; rewrite app_nil_r)
         | eexists; split; [reflexivity|]; trace_simpl; done ].
Qed.


(** No call renames the session, changes its id, makes the timer
    repeating, or declares, removes, renames or re-validates an option; and
    no call stores a value the option rejects. *)
Lemma invoke_constants c e :
  m_id (invoke e c) = m_id e
  /\ m_name (invoke e c) = m_name e
  /\ singleShot (m_pingTimer (invoke e c)) = singleShot (m_pingTimer e)
  /\ opt_name <$> m_options (invoke e c) = opt_name <$> m_options e
  /\ opt_isValid <$> m_options (invoke e c) = opt_isValid <$> m_options e
  /\ (valuesValid (m_options e) -> valuesValid (m_options (invoke e c))).
Proof.
  destruct e as [s nm w id ps p tm wb ob os d tr].
  by_call c s p ps d.
  all: try done.
  all: repeat split;
         first [ done | apply applyEdits_shape | apply applyEdit_shape
               | apply applyEdits_valid | apply applyEdit_valid ].
Qed.

(** On a Disconnected session no call but [onProtocolStart] changes the
    state, the stream or the device. *)
Lemma invoke_disconnected c e :
  revives c = false ->
  state e = Disconnected ->
  state (invoke e c) = Disconnected
  /\ streamOf (m_trace (invoke e c)) = streamOf (m_trace e)
  /\ m_ioDevice (invoke e c) = m_ioDevice e.
Proof.
  destruct e as [s nm w id ps p tm wb ob os d tr].
  intros Hc Hs. simpl in Hs. subst s.
  destruct c; try discriminate Hc; clear Hc; open_call;
    [ destruct p; engine_eval;
      try (destruct (tc_isValid _); engine_eval)
    | engine_eval | engine_eval | engine_eval
    | destruct p; engine_eval
    | destruct p; engine_eval
    | engine_eval
    | destruct p; engine_eval
    | destruct p; engine_eval
    | destruct d as [[] ?]; engine_eval ].
  all: repeat split; try done; trace_simpl; done.
Qed.

End Invariants.

(** ** Runs of calls *)

Section Runs.
Context `{EngineProtocol}.

Lemma invokeAll_cons c cs e : invokeAll (c :: cs) e = invokeAll cs (invoke e c).
Proof. reflexivity. Qed.

Lemma invokeAll_trace cs e :
  exists t,
    m_trace (invokeAll cs e) = m_trace e ++ t
    /\ streamOf t = onStream (debugOutOf t)
    /\ forfeitsOf t = replicate (timeoutsIn cs) WinByStalledConnection.
Proof.
  revert e. induction cs as [|c cs IH]; intros e.
  { exists []. by rewrite app_nil_r. }
  rewrite invokeAll_cons.
  destruct (IH (invoke e c)) as (t2 & Ht2 & Hm2 & Hf2).
  destruct (invoke_trace c e) as (t1 & Ht1 & Hm1 & Hf1).
  exists (t1 ++ t2). split; [|split].
  - by rewrite Ht2, Ht1, app_assoc.
  - by rewrite streamOf_app, debugOutOf_app, onStream_app, Hm1, Hm2.
  - rewrite forfeitsOf_app, Hf1, Hf2. unfold timeoutsIn.
    rewrite filter_cons. by destruct (isTimeout c).
Qed.

Lemma invokeAll_pristine cs e :
  (state e = NotStarted -> m_pinging e = false /\ m_trace e = []) ->
  state (invokeAll cs e) = NotStarted ->
  m_pinging (invokeAll cs e) = false /\ m_trace (invokeAll cs e) = [].
Proof.
  revert e. induction cs as [|c cs IH]; intros e HC Hs; [by apply HC|].
  rewrite invokeAll_cons in *. apply IH; [|done].
  by apply invoke_keeps_pristine.
Qed.

(** X1.  A session that may send holds no queued line.  If that holds of
    a session, it holds after every run of calls; so a line written at once
    never overtakes a line that waits. *)
Theorem sendable_session_holds_no_queue (cs : list Call) (e : ChessEngine) :
  (sendable e -> m_writeBuffer e = []) ->
  sendable (invokeAll cs e) ->
  m_writeBuffer (invokeAll cs e) = [].
Proof.
  revert e. induction cs as [|c cs IH]; intros e HA; [done|].
  rewrite invokeAll_cons. apply IH.
  by apply invoke_keeps_buffer_rule.
Qed.

(** X2.  As long as a session is NotStarted, whatever calls of
    [applySettings], [setOption], [start], [onProtocolStart],
    [closeConnection], [ping], [pong], [onPingTimeout], [write],
    [flushWriteBuffer] and [quit] were made on it since its construction,
    it has emitted no signal, invoked no protocol primitive and written
    nothing to the device.  ([go], [endGame], [onTimeout] and [onReadyRead]
    are not among the calls of a run.) *)
Theorem nothing_happens_before_start
    (cs : list Call) (ioDevice : QIODevice) (count : Z) :
  state (invokeAll cs (fst (construct ioDevice count))) = NotStarted ->
  m_trace (invokeAll cs (fst (construct ioDevice count))) = []
  /\ m_pinging (invokeAll cs (fst (construct ioDevice count))) = false.
Proof.
  intros Hs.
  destruct (invokeAll_pristine cs (fst (construct ioDevice count)))
    as [Hp Ht]; [done | done | by split].
Qed.

(** X3.  Whatever a run of calls hands to the device, the debug sink has
    seen: the bytes written during the run are the outgoing debug texts of
    the run, each followed by a newline, in the same order. *)
Theorem debug_sink_mirrors_stream (cs : list Call) (e : ChessEngine) :
  exists t,
    m_trace (invokeAll cs e) = m_trace e ++ t
    /\ streamOf t = onStream (debugOutOf t).
Proof.
  destruct (invokeAll_trace cs e) as (t & Ht & Hm & _). by exists t.
Qed.

(** X4.  Forfeits are reported by heartbeat timeouts and by nothing else:
    a run of calls reports one stalled-connection forfeit per timeout among
    them. *)
Theorem forfeits_come_from_timeouts (cs : list Call) (e : ChessEngine) :
  forfeitsOf (m_trace (invokeAll cs e))
  = forfeitsOf (m_trace e)
    ++ replicate (timeoutsIn cs) WinByStalledConnection.
Proof.
  destruct (invokeAll_trace cs e) as (t & Ht & _ & Hf).
  by rewrite Ht, forfeitsOf_app, Hf.
Qed.


(** X6.  No run of calls changes the session's id or name, makes the
    heartbeat timer repeating, or declares, removes, renames or re-validates
    an option. *)
Theorem identity_and_registry_shape_kept (cs : list Call) (e : ChessEngine) :
  m_id (invokeAll cs e) = m_id e
  /\ m_name (invokeAll cs e) = m_name e
  /\ singleShot (m_pingTimer (invokeAll cs e)) = singleShot (m_pingTimer e)
  /\ opt_name <$> m_options (invokeAll cs e) = opt_name <$> m_options e
  /\ opt_isValid <$> m_options (invokeAll cs e) = opt_isValid <$> m_options e.
Proof.
  revert e. induction cs as [|c cs IH]; intros e; [done|].
  rewrite invokeAll_cons.
  destruct (IH (invoke e c)) as (-> & -> & -> & -> & ->).
  destruct (invoke_constants c e) as (? & ? & ? & ? & ? & _). done.
Qed.

(** X7.  A value is stored only if the option accepts it.  If every
    declared option holds a value its predicate accepts, so it does after
    every run of calls. *)
Theorem stored_values_stay_valid (cs : list Call) (e : ChessEngine) :
  valuesValid (m_options e) -> valuesValid (m_options (invokeAll cs e)).
Proof.
  revert e. induction cs as [|c cs IH]; intros e Hv; [done|].
  rewrite invokeAll_cons. apply IH.
  by apply (invoke_constants c e).
Qed.

(** X8.  Disconnected is final but for [onProtocolStart].  On a
    Disconnected session a run of calls without [onProtocolStart] leaves the
    state Disconnected, writes nothing to the device, and leaves the device
    as it is: a session that quit with its stream open keeps it open. *)
Theorem disconnected_stays_silent (cs : list Call) (e : ChessEngine) :
  state e = Disconnected ->
  Forall (fun c => revives c = false) cs ->
  state (invokeAll cs e) = Disconnected
  /\ streamOf (m_trace (invokeAll cs e)) = streamOf (m_trace e)
  /\ m_ioDevice (invokeAll cs e) = m_ioDevice e.
Proof.
  revert e. induction cs as [|c cs IH]; intros e Hs Hcs; [done|].
  inversion Hcs as [|? ? Hc Hcs']; subst.
  destruct (invoke_disconnected c e Hc Hs) as (Hs1 & Hst1 & Hd1).
  destruct (IH (invoke e c) Hs1 Hcs') as (Hs2 & Hst2 & Hd2).
  rewrite invokeAll_cons. by rewrite Hs2, Hst2, Hd2, Hst1, Hd1.
Qed.

End Runs.

Lemma sendable_session_holds_no_queue_witness :
  (sendable firstEngine -> m_writeBuffer firstEngine = [])
  /\ sendable (@invokeAll pingingProtocol
                 [CallWrite "new"; CallStart; CallOnProtocolStart; CallPing;
                  CallWrite "go"; CallPong] firstEngine)
  /\ m_writeBuffer (@invokeAll pingingProtocol
                      [CallWrite "new"; CallStart; CallOnProtocolStart;
                       CallPing; CallWrite "go"; CallPong] firstEngine)
     = [].
Proof.
  assert (sendable (@invokeAll pingingProtocol
                      [CallWrite "new"; CallStart; CallOnProtocolStart;
                       CallPing; CallWrite "go"; CallPong] firstEngine))
    as Hs by (repeat split; discriminate).
  split; [reflexivity|]. split; [exact Hs|].
  apply (@sendable_session_holds_no_queue pingingProtocol); [reflexivity|].
  exact Hs.
Defined.

Lemma nothing_happens_before_start_witness :
  state (@invokeAll pingingProtocol
           [CallWrite "new"; CallSetOption "Hash" (QVString "128");
            CallPing; CallPong; CallFlushWriteBuffer]
           (fst (construct openDevice 0)))
  = NotStarted
  /\ m_trace (@invokeAll pingingProtocol
                [CallWrite "new"; CallSetOption "Hash" (QVString "128");
                 CallPing; CallPong; CallFlushWriteBuffer]
                (fst (construct openDevice 0)))
     = [].
Proof.
  split; [reflexivity|].
  apply (@nothing_happens_before_start pingingProtocol
           [CallWrite "new"; CallSetOption "Hash" (QVString "128");
            CallPing; CallPong; CallFlushWriteBuffer] openDevice 0).
  reflexivity.
Defined.


Lemma stored_values_stay_valid_witness :
  valuesValid (m_options hashEngine)
  /\ valuesValid
       (m_options (@invokeAll pingingProtocol
                     [CallSetOption "Hash" (QVString "128");
                      CallOnProtocolStart;
                      CallSetOption "Hash" QVInvalid] hashEngine)).
Proof.
  assert (valuesValid (m_options hashEngine)) as Hv
    by (repeat constructor).
  split; [exact Hv|].
  apply (@stored_values_stay_valid pingingProtocol). exact Hv.
Defined.

Lemma disconnected_stays_silent_witness :
  state (quit waitingEngine) = Disconnected
  /\ isOpen (m_ioDevice
               (@invokeAll pingingProtocol
                  [CallWrite "go"; CallPong; CallCloseConnection;
                   CallOnPingTimeout; CallStart]
                  (quit waitingEngine)))
     = true.
Proof.
  split; [reflexivity|].
  destruct (@disconnected_stays_silent pingingProtocol
              [CallWrite "go"; CallPong; CallCloseConnection;
               CallOnPingTimeout; CallStart]
              (quit waitingEngine) eq_refl) as (_ & _ & Hd).
  { repeat constructor. }
  rewrite Hd. reflexivity.
Defined.

(** ** The option registry *)

Lemma findOption_first n os :
  match findOption n os with
  | Some o =>
      exists before after,
        os = before ++ o :: after
        /\ opt_name o = n
        /\ Forall (fun x => opt_name x <> n) before
  | None => Forall (fun x => opt_name x <> n) os
  end.
Proof.
  induction os as [|o os IH]; simpl; [constructor|].
  case_bool_decide as Hn.
  - exists [], os. repeat split; [done | constructor].
  - destruct (findOption n os) as [o'|].
    + destruct IH as (before & after & -> & Ho' & Hb).
      exists (o :: before), after. repeat split; [done|].
      by constructor.
    + by constructor.
Qed.

(** X9.  [getOption] returns the first declared option of the name asked
    for, and the null pointer exactly when no declared option has that
    name. *)
Theorem getOption_first_match (name : string) (e : ChessEngine) :
  match getOption name e with
  | Some o =>
      exists before after,
        m_options e = before ++ o :: after
        /\ opt_name o = name
        /\ Forall (fun x => opt_name x <> name) before
  | None => Forall (fun x => opt_name x <> name) (m_options e)
  end.
Proof. apply findOption_first. Qed.

(** X10.  On a session past Starting, an edit the option accepts is
    stored where [getOption] reads it back; looking up any other name gives
    what it gave before; the registry keeps its length, and exactly one
    set-option command goes out. *)
Theorem setOption_then_getOption
    (name : string) (value : QVariant) (o : EngineOption) (e : ChessEngine) :
  state e <> NotStarted -> state e <> Starting ->
  getOption name e = Some o ->
  opt_isValid o value = true ->
  getOption name (setOption name value e) = Some (opt_setValue value o)
  /\ (forall other, other <> name ->
        getOption other (setOption name value e) = getOption other e)
  /\ length (m_options (setOption name value e)) = length (m_options e)
  /\ m_trace (setOption name value e)
     = m_trace e ++ [ProtoOption name (toString value)].
Proof.
  intros Hn Hs Ho Hv. rewrite setOption_applied by done.
  unfold getOption in *. simpl.
  unfold applyEdit, accepts, editEffect. simpl. rewrite Ho, Hv.
  split; [|split; [|split]].
  - rewrite findOption_storeValue, Ho. simpl.
    by rewrite bool_decide_eq_true_2.
  - intros other Hne. rewrite findOption_storeValue.
    rewrite bool_decide_eq_false_2 by congruence.
    by destruct (findOption other (m_options e)).
  - pose proof (storeValue_shape name value (m_options e)) as [Hl _].
    apply (f_equal length) in Hl. by rewrite !length_fmap in Hl.
  - done.
Qed.

Lemma setOption_then_getOption_witness :
  state (onProtocolStart hashEngine) <> NotStarted
  /\ getOption "Hash" (onProtocolStart hashEngine)
     = Some (mkOption "Hash" (QVString "64")
               (fun v => negb (bool_decide (v = QVInvalid))))
  /\ getOption "Hash"
       (setOption "Hash" (QVString "128") (onProtocolStart hashEngine))
     = Some (mkOption "Hash" (QVString "128")
               (fun v => negb (bool_decide (v = QVInvalid)))).
Proof.
  split; [discriminate|]. split; [reflexivity|].
  apply (setOption_then_getOption "Hash" (QVString "128")
           (mkOption "Hash" (QVString "64")
              (fun v => negb (bool_decide (v = QVInvalid))))
           (onProtocolStart hashEngine));
    [discriminate | discriminate | reflexivity | reflexivity].
Defined.

(** ** Calls that repeat *)

Lemma start_state e : state e = NotStarted -> state (start e) = Starting.
Proof.
  destruct e as [s nm w id ps p tm wb ob os d tr].
  intros Hs. simpl in Hs. subst s. unfold start. engine_eval. done.
Qed.

(** X11.  Flushing twice is flushing once, starting twice is starting
    once, quitting twice is quitting once, and a second completion of the
    protocol startup adds nothing to the first. *)
Theorem repeated_calls_add_nothing (e : ChessEngine) :
  flushWriteBuffer (flushWriteBuffer e) = flushWriteBuffer e
  /\ start (start e) = start e
  /\ quit (quit e) = quit e
  /\ onProtocolStart (onProtocolStart e) = onProtocolStart e.
Proof.
  split; [|split; [|split]].
  - destruct e as [s nm w id ps p tm wb ob os d tr].
    destruct s, p; engine_eval; by rewrite ?app_nil_r.
  - destruct (decide (state e = NotStarted)) as [Hs|Hs].
    + apply start_elsewhere. rewrite start_state by done. discriminate.
    + by rewrite !(start_elsewhere e Hs).
  - destruct (decide (state (quit e) = Disconnected)) as [Hq|Hq].
    + unfold quit at 1. rewrite (bool_decide_eq_true_2 _ Hq).
      by rewrite orb_true_r.
    + unfold quit in *.
      destruct (negb (isOpen (m_ioDevice e))
                || bool_decide (state e = Disconnected)) eqn:Hg; [|done].
      rewrite Hg. done.
  - destruct e as [s nm w id ps p tm wb ob os d tr].
    engine_eval. by rewrite ?app_nil_r.
Qed.

(** ** Startup *)

(** X12.  Startup sends the queue in two steps.  [start] on a NotStarted
    session hands the lines queued so far to the device, in order, and only
    then invokes the protocol startup; it leaves the session in Starting with
    the heartbeat flag set but no timer armed, so a [ping] is a no-op and
    every further line is queued; [onProtocolStart] sends those lines, in
    order, then applies the pending edits, and leaves a session that may
    send. *)
Theorem startup_sends_queue_in_two_steps `{EngineProtocol}
    (early late : list string) (e : ChessEngine) :
  state e = NotStarted ->
  m_trace (start (writes early e))
  = m_trace e ++ flat_map (sendEffects e) (m_writeBuffer e ++ early)
    ++ [ProtoStart]
  /\ state (start (writes early e)) = Starting
  /\ m_pinging (start (writes early e)) = true
  /\ m_pingTimer (start (writes early e)) = m_pingTimer e
  /\ ping (start (writes early e)) = start (writes early e)
  /\ writes late (start (writes early e))
     = set_writeBuffer late (start (writes early e))
  /\ m_trace (onProtocolStart (writes late (start (writes early e))))
     = m_trace (start (writes early e))
       ++ flat_map (sendEffects e) late
       ++ (editEffect (m_name e) (m_options e) <$> m_optionBuffer e)
  /\ sendable (onProtocolStart (writes late (start (writes early e)))).
Proof.
  destruct e as [s nm w id ps p tm wb ob os d tr].
  intros Hs. simpl in Hs. subst s.
  unfold writes, start, ping, sendable. engine_eval.
  rewrite <- ?app_assoc. repeat split; done.
Qed.

Lemma startup_sends_queue_in_two_steps_witness :
  state firstEngine = NotStarted
  /\ streamOf (m_trace (onProtocolStart
                          (writes ["force"]
                             (start (writes ["xboard"] firstEngine)))))
     = onStream ["xboard"; "force"].
Proof.
  split; [reflexivity|].
  destruct (@startup_sends_queue_in_two_steps pingingProtocol
              ["xboard"] ["force"] firstEngine eq_refl)
    as (_ & _ & _ & _ & _ & _ & Ht & _).
  rewrite Ht. reflexivity.
Defined.

(** X13.  [onProtocolStart] has no test on the state.  From any session
    whose device is open, even one that has quit and is Disconnected, it
    ends in Idle with no heartbeat outstanding, both queues empty and the
    device still open; what it adds to the trace is the queued lines handed
    to the device, in order, followed by one set-option invocation or
    diagnostic per pending edit, in order; and a line written next is handed
    to the device at once. *)
Theorem onProtocolStart_makes_sendable (line : string) (e : ChessEngine) :
  isOpen (m_ioDevice e) = true ->
  sendable (onProtocolStart e)
  /\ state (onProtocolStart e) = Idle
  /\ m_writeBuffer (onProtocolStart e) = []
  /\ m_optionBuffer (onProtocolStart e) = []
  /\ isOpen (m_ioDevice (onProtocolStart e)) = true
  /\ m_trace (onProtocolStart e)
     = m_trace e ++ flat_map (sendEffects e) (m_writeBuffer e)
       ++ (editEffect (m_name e) (m_options e) <$> m_optionBuffer e)
  /\ write line (onProtocolStart e)
     = emits (sendEffects e line) (onProtocolStart e).
Proof.
  destruct e as [s nm w id ps p tm wb ob os d tr].
  intros Ho. unfold sendable, write. engine_eval.
  split; [done|]. do 5 (split; [done|]).
  by rewrite <- ?app_assoc.
Qed.

Lemma onProtocolStart_makes_sendable_witness :
  isOpen (m_ioDevice (quit waitingEngine)) = true
  /\ state (quit waitingEngine) = Disconnected
  /\ state (onProtocolStart (quit waitingEngine)) = Idle.
Proof.
  split; [vm_compute; reflexivity|]. split; [vm_compute; reflexivity|].
  destruct (onProtocolStart_makes_sendable "go" (quit waitingEngine))
    as (_ & Hs & _); [vm_compute; reflexivity | exact Hs].
Defined.

(** ** Closing *)

(** X14.  [closeConnection] on a session that is not Disconnected emits
    one ready signal and closes the device, leaves no heartbeat outstanding,
    no timer running and no line queued; after that the session is inert:
    closing again, quitting, starting, writing, flushing, a heartbeat and a
    heartbeat ack all return it unchanged. *)
Theorem closed_session_is_inert `{EngineProtocol}
    (line : string) (e : ChessEngine) :
  state e <> Disconnected ->
  m_trace (closeConnection e) = m_trace e ++ [SigReady; IoClose]
  /\ m_pinging (closeConnection e) = false
  /\ isActive (m_pingTimer (closeConnection e)) = false
  /\ m_writeBuffer (closeConnection e) = []
  /\ isOpen (m_ioDevice (closeConnection e)) = false
  /\ closeConnection (closeConnection e) = closeConnection e
  /\ quit (closeConnection e) = closeConnection e
  /\ start (closeConnection e) = closeConnection e
  /\ write line (closeConnection e) = closeConnection e
  /\ flushWriteBuffer (closeConnection e) = closeConnection e
  /\ ping (closeConnection e) = closeConnection e
  /\ pong (closeConnection e) = closeConnection e.
Proof.
  intros Hs.
  assert (closeConnection e
          = ioDevice_close
              (disconnect_readChannelFinished
                 (emit SigReady
                    (set_writeBuffer []
                       (timer_stop
                          (set_pinging false
                             (ChessPlayer_closeConnection e)))))))
    as Hc.
  { unfold closeConnection. by rewrite bool_decide_eq_false_2. }
  assert (state (closeConnection e) = Disconnected) as Hd by (by rewrite Hc).
  assert (m_pinging (closeConnection e) = false) as Hp by (by rewrite Hc).
  split; [rewrite Hc; simpl; by rewrite <- app_assoc|].
  split; [done|]. split; [by rewrite Hc|]. split; [by rewrite Hc|].
  split; [by rewrite Hc|].
  split.
  { unfold closeConnection at 1. by rewrite (bool_decide_eq_true_2 _ Hd). }
  split.
  { unfold quit. rewrite (bool_decide_eq_true_2 _ Hd).
    by rewrite orb_true_r. }
  split.
  { apply start_elsewhere. rewrite Hd. discriminate. }
  split; [by apply write_dropped|].
  split.
  { rewrite flush_disconnected by done.
    assert (m_writeBuffer (closeConnection e) = []) as Hb by (by rewrite Hc).
    rewrite <- Hb at 1. by destruct (closeConnection e). }
  split.
  { unfold ping. rewrite Hp.
    rewrite (bool_decide_eq_true_2 _ Hd).
    by case_bool_decide. }
  unfold pong. by rewrite Hp.
Qed.

Lemma closed_session_is_inert_witness :
  state waitingEngine <> Disconnected
  /\ write "go" (closeConnection waitingEngine) = closeConnection waitingEngine.
Proof.
  split; [discriminate|].
  destruct (@closed_session_is_inert pingingProtocol "go" waitingEngine)
    as (_ & _ & _ & _ & _ & _ & _ & _ & Hw & _); [discriminate|].
  exact Hw.
Defined.

(** ** One heartbeat *)

(** X15.  A heartbeat cycle on a session that may send.  [ping] sends one
    heartbeat, records the state as the baseline and arms the single-shot
    timer for 10000 ms; lines written during the wait are queued and nothing
    is sent; the ack stops the timer, puts the queued lines on the stream in
    order, emits exactly one ready signal, and leaves a session that may
    send, in the state it had, or in Idle if that was FinishingGame. *)
Theorem heartbeat_cycle `{EngineProtocol}
    (lines : list string) (e : ChessEngine) :
  sendable e ->
  fst (sendPing e) = true ->
  ping e = timer_start 10000
             (set_pingState (state e) (set_pinging true (emit ProtoPing e)))
  /\ writes lines (ping e)
     = set_writeBuffer (m_writeBuffer e ++ lines) (ping e)
  /\ m_trace (pong (writes lines (ping e)))
     = m_trace e ++ [ProtoPing]
       ++ flat_map (sendEffects e) (m_writeBuffer e ++ lines) ++ [SigReady]
  /\ state (pong (writes lines (ping e)))
     = (if bool_decide (state e = FinishingGame) then Idle else state e)
  /\ sendable (pong (writes lines (ping e)))
  /\ m_writeBuffer (pong (writes lines (ping e))) = []
  /\ isActive (m_pingTimer (pong (writes lines (ping e)))) = false.
Proof.
  intros (Hn & Hd & Hp) Hsent.
  assert (sendPing e = (true, emit ProtoPing e)) as Hsend.
  { unfold sendPing in *.
    by destruct (sendPingSucceeds e); [|discriminate Hsent]. }
  assert (ping e
          = timer_start 10000
              (set_pingState (state e) (set_pinging true (emit ProtoPing e))))
    as Hping.
  { unfold ping. rewrite Hp, !bool_decide_eq_false_2 by done.
    by rewrite Hsend. }
  split; [exact Hping|]. rewrite Hping.
  assert (writes lines
            (timer_start 10000
               (set_pingState (state e)
                  (set_pinging true (emit ProtoPing e))))
          = set_writeBuffer (m_writeBuffer e ++ lines)
              (timer_start 10000
                 (set_pingState (state e)
                    (set_pinging true (emit ProtoPing e))))) as Hw.
  { unfold writes. rewrite writes_deferred; [done | done | by right]. }
  split; [exact Hw|]. rewrite Hw.
  unfold pong. simpl.
  rewrite flush_direct by (unfold state in *; simpl; done).
  simpl. unfold state in *. simpl.
  destruct (bool_decide (m_state e = FinishingGame)) eqn:Hf; simpl.
  - rewrite <- !app_assoc. repeat split; done.
  - apply bool_decide_eq_false_1 in Hf.
    rewrite <- !app_assoc. repeat split; done.
Qed.

Lemma heartbeat_cycle_witness :
  sendable (onProtocolStart (start firstEngine))
  /\ isActive (m_pingTimer
                 (@pong pingingProtocol
                    (writes ["new"; "go"]
                       (@ping pingingProtocol
                          (onProtocolStart (start firstEngine))))))
     = false.
Proof.
  assert (sendable (onProtocolStart (start firstEngine))) as Hs
    by (repeat split; discriminate).
  split; [exact Hs|].
  destruct (@heartbeat_cycle pingingProtocol ["new"; "go"]
              (onProtocolStart (start firstEngine)) Hs eq_refl)
    as (_ & _ & _ & _ & _ & _ & Ht).
  exact Ht.
Defined.

(** ** Settings *)



(** X17.  Settings applied to a session that may send and is past
    Starting act at once: the init strings go to the device first, in
    order, then every custom setting is applied in order, with a set-option
    command or a diagnostic each; nothing is queued. *)
Theorem applySettings_acts_at_once
    (settings : EngineSettings) (e : ChessEngine) :
  sendable e -> state e <> Starting ->
  applySettings settings e
  = set_whiteEvalPov (whiteEvalPov settings)
      (emits (flat_map (sendEffects e) (initStrings settings)
              ++ (editEffect (m_name e) (m_options e)
                    <$> customSettings settings))
         (set_options (foldl applyEdit (m_options e) (customSettings settings))
            e)).
Proof.
  destruct e as [s nm w id ps p tm wb ob os d tr].
  intros (Hn & Hd & Hp) Hs. simpl in Hp. subst p.
  unfold applySettings.
  destruct (tc_isValid (timeControl settings)), s; engine_eval; try done.
  all: by rewrite <- ?app_assoc.
Qed.

Lemma applySettings_acts_at_once_witness :
  sendable (onProtocolStart hashEngine)
  /\ optionsSentOf
       (m_trace (applySettings
                   (mkSettings ["new"]
                      [mkSetting "Hash" (QVString "128")]
                      (mkTimeControl true) false)
                   (onProtocolStart hashEngine)))
     = [("Hash", "128")].
Proof.
  assert (sendable (onProtocolStart hashEngine)) as Hs
    by (repeat split; discriminate).
  split; [exact Hs|].
  rewrite (applySettings_acts_at_once
             (mkSettings ["new"] [mkSetting "Hash" (QVString "128")]
                (mkTimeControl true) false)
             (onProtocolStart hashEngine) Hs ltac:(discriminate)).
  reflexivity.
Defined.
